(** * The statistics engine of the datasets microservice ([server.js])

    A shallow embedding of the numeric functions of [server.js] ([mean],
    [median], [stddev], [movingAverage], [pearson], [filterByDateRange]) and
    of the three route bodies that call them (summary, trends, correlation);
    then of the rest of the file: the data, list, export and upload routes,
    the auth middleware and the generator of the synthetic series.

    A JavaScript Number is an IEEE-754 binary64 value.  The engine is written
    once, over an interface [Number] of the operators the source uses, and
    run at two instances:

    - [Binary64]: the kernel's primitive floats, which are binary64 with
      round-to-nearest-even, i.e. the arithmetic the program really runs on;
      everything evaluates there with [vm_compute];
    - [Exact]: real numbers extended with NaN, the arithmetic without
      rounding, in which the algebraic laws of the statistics are stated. *)

From Stdlib Require Import String Ascii.
From Stdlib Require Import List ZArith Bool Lia Lra Psatz.
From Stdlib Require Import Sorted Permutation.
From Stdlib Require Import Reals.
From Stdlib Require Import Floats.
From Stdlib Require Import DecimalString.
Import ListNotations.

Set Implicit Arguments.

(** ** The Number interface *)

Declare Scope num_scope.
Delimit Scope num_scope with num.

(** The operators of the source on Numbers.  [nlt], [nle] and [neq] are the
    results of [<], [<=] and [===] (all three false on NaN); [toFixed6 x] is
    [Number(x.toFixed(6))]. *)
Class Number (N : Type) : Type := {
  NaN : N;
  of_Z : Z -> N;
  nadd : N -> N -> N;
  nsub : N -> N -> N;
  nmul : N -> N -> N;
  ndiv : N -> N -> N;
  nopp : N -> N;
  nsqrt : N -> N;
  nabs : N -> N;
  nlt : N -> N -> bool;
  nle : N -> N -> bool;
  neq : N -> N -> bool;
  toFixed6 : N -> N
}.

Infix "+" := nadd : num_scope.
Infix "-" := nsub : num_scope.
Infix "*" := nmul : num_scope.
Infix "/" := ndiv : num_scope.
Notation "- x" := (nopp x) : num_scope.
Infix "<?" := nlt (at level 70) : num_scope.
Infix "<=?" := nle (at level 70) : num_scope.
Notation "x >? y" := (nlt y x) (at level 70) : num_scope.
Notation "x >=? y" := (nle y x) (at level 70) : num_scope.
Infix "===" := neq (at level 70) : num_scope.

(** ** JavaScript values *)

(** What an element of a series, or the result of an engine function, can
    be: [undefined] (a record without the field), [null], or a Number. *)
Inductive value (N : Type) : Type :=
| Undefined
| Null
| Num (n : N).

Arguments Undefined {N}.
Arguments Null {N}.
Arguments Num {N} n.

(** What a route body does: sends a JSON body, sends an error status, or
    dies on a [TypeError] (a method called on [null] or [undefined]). *)
Inductive outcome (A : Type) : Type :=
| Json (body : A)
| Status (code : nat) (error : string)
| TypeError.

Arguments Json {A} body.
Arguments Status {A} code error.
Arguments TypeError {A}.

(** ** Array primitives of the runtime *)

(** [arr.slice(start, end)] for integers [0 <= start]. *)
Definition slice {A : Type} (arr : list A) (start stop : nat) : list A :=
  firstn (stop - start) (skipn start arr).

Section Engine.

Context {N : Type} {num : Number N}.
Local Open Scope num_scope.

(** The integer literal or array length [n] as a Number. *)
Definition of_nat (n : nat) : N := of_Z (Z.of_nat n).

(** A decimal literal [p/q] of the source, such as [0.7]: the Number nearest
    to it, which is the quotient of the two integers. *)
Definition decimal (p q : Z) : N := of_Z p / of_Z q.

(** The coercion every arithmetic operator and comparison applies to an
    operand: [undefined] is NaN, [null] is 0. *)
Definition ToNumber (v : value N) : N :=
  match v with
  | Undefined => NaN
  | Null => of_Z 0
  | Num n => n
  end.

(** [x.toFixed(6)] read back as a Number; a [TypeError] ([None]) on [null]
    and [undefined], which have no methods. *)
Definition toFixed_6 (v : value N) : option N :=
  match v with
  | Num n => Some (toFixed6 n)
  | _ => None
  end.

(** [Number.isNaN], as the self-comparison it is. *)
Definition isNaN (x : N) : bool := negb (x === x).

(** *** mean (server.js 105-109) *)

Definition mean (arr : list (value N)) : value N :=
  if Nat.eqb (length arr) 0 then Null
  else
    let s := fold_left (fun a b => a + ToNumber b) arr (of_Z 0) in
    Num (s / of_nat (length arr)).

(** *** median (server.js 111-116) *)

(** [Array.prototype.sort] with a comparator: [undefined] elements go to the
    end without being compared; the others are sorted stably, [x] before [y]
    unless [cmp x y > 0].  Modelled as the stable insertion sort, which is
    the order of every stable sort as long as the comparator is consistent.
    With a NaN among the differences it is not, and the order is the
    implementation's: of such arrays only what holds of any reordering is
    proved. *)
Fixpoint sort_insert (cmp : value N -> value N -> N) (x : value N)
    (l : list (value N)) : list (value N) :=
  match l with
  | [] => [x]
  | y :: l' => if cmp x y >? of_Z 0 then y :: sort_insert cmp x l' else x :: l
  end.

Definition is_undefined (v : value N) : bool :=
  match v with Undefined => true | _ => false end.

Definition sort (cmp : value N -> value N -> N) (arr : list (value N))
    : list (value N) :=
  fold_right (sort_insert cmp) [] (filter (fun v => negb (is_undefined v)) arr)
  ++ filter is_undefined arr.

Definition median (arr : list (value N)) : value N :=
  if Nat.eqb (length arr) 0 then Null
  else
    let a := sort (fun x y => ToNumber x - ToNumber y) arr in
    let mid := Nat.div (length a) 2 in
    if Nat.eqb (Nat.modulo (length a) 2) 0
    then Num ((ToNumber (nth (mid - 1) a Undefined) + ToNumber (nth mid a Undefined))
              / of_Z 2)
    else nth mid a Undefined.

(** *** stddev (server.js 118-123) *)

Definition stddev (arr : list (value N)) : value N :=
  if Nat.eqb (length arr) 0 then Null
  else
    let m := ToNumber (mean arr) in
    let s :=
      nsqrt (fold_left (fun acc v => acc + (ToNumber v - m) * (ToNumber v - m))
                       arr (of_Z 0)
             / of_nat (length arr)) in
    Num s.

(** *** movingAverage (server.js 125-133) *)

(** One turn of the loop: push the rounded mean of the trailing window onto
    [out].  [None] is the [TypeError] of [null.toFixed]. *)
Definition movingAverage_step (arr : list (value N)) (windowSize : Z)
    (out : option (list N)) (i : nat) : option (list N) :=
  match out with
  | None => None
  | Some out =>
      let start := Z.max 0 (Z.of_nat i - windowSize + 1) in
      let slice := slice arr (Z.to_nat start) (i + 1) in
      match toFixed_6 (mean slice) with
      | None => None
      | Some v => Some (out ++ [v])
      end
  end.

Definition movingAverage (arr : list (value N)) (windowSize : Z)
    : option (list N) :=
  fold_left (movingAverage_step arr windowSize) (seq 0 (length arr)) (Some []).

(** *** pearson (server.js 135-153) *)

(** The loop body: the three running sums after index [i]. *)
Definition pearson_step (x y : list (value N)) (mx my : N)
    (acc : N * N * N) (i : nat) : N * N * N :=
  let '(num, denx, deny) := acc in
  let dx := ToNumber (nth i x Undefined) - mx in
  let dy := ToNumber (nth i y Undefined) - my in
  (num + dx * dy, denx + dx * dx, deny + dy * dy).

Definition pearson_sums (x y : list (value N)) : N * N * N :=
  let n := length x in
  let mx := ToNumber (mean x) in
  let my := ToNumber (mean y) in
  fold_left (pearson_step x y mx my) (seq 0 n) (of_Z 0, of_Z 0, of_Z 0).

Definition pearson (x y : list (value N)) : value N :=
  if negb (Nat.eqb (length x) (length y)) || Nat.eqb (length x) 0 then Null
  else
    let '(num, denx, deny) := pearson_sums x y in
    let denom := nsqrt (denx * deny) in
    if denom === of_Z 0 then Num (of_Z 0)
    else Num (num / denom).

(** *** The correlation label (server.js 268-273) *)

Definition interpretation (r : value N) : string :=
  if ToNumber r >=? decimal 7 10 then "Strong positive correlation"
  else if ToNumber r >=? decimal 4 10 then "Moderate positive correlation"
  else if ToNumber r <=? - decimal 7 10 then "Strong negative correlation"
  else if ToNumber r <=? - decimal 4 10 then "Moderate negative correlation"
  else "Weak or no correlation".

(** ** Records and the date-range filter *)

(** A record of a dataset: its [date] and its other fields by name. *)
Record record : Type := {
  date : string;
  fields : list (string * value N)
}.

(** [s[param]] for a name that is a field of the records or of none: the
    field, or [undefined] when the record has none.  It does not answer
    for "date" nor for the names a record inherits; [property] below does,
    and [reads_field] says when the two agree. *)
Fixpoint get_field (fs : list (string * value N)) (param : string) : value N :=
  match fs with
  | [] => Undefined
  | (k, v) :: rest => if String.eqb k param then v else get_field rest param
  end.

Definition get (s : record) (param : string) : value N :=
  get_field (fields s) param.

(** A query parameter is a string or [undefined]; the empty string and
    [undefined] are falsy. *)
Definition truthy (q : option string) : bool :=
  match q with
  | Some s => negb (String.eqb s "")
  | None => false
  end.

(** [Date.parse] of the runtime: the time value of a date string in
    milliseconds since the epoch, or [None] for the NaN of an invalid date. *)
Variable Date_parse : string -> option Z.

(** [a < b] on two [Date] objects compares their time values, and is false
    when either is NaN. *)
Definition date_lt (a b : option Z) : bool :=
  match a, b with
  | Some ta, Some tb => Z.ltb ta tb
  | _, _ => false
  end.

(** [q ? new Date(q) : null]: [None] is [null], [Some t] a [Date] object of
    time value [t] (an object, so truthy even when [t] is NaN). *)
Definition new_Date_or_null (q : option string) : option (option Z) :=
  match q with
  | Some s => if truthy q then Some (Date_parse s) else None
  | None => None
  end.

(** The callback of [series.filter] (server.js 160-165). *)
Definition in_range (fromDate toDate : option (option Z)) (s : record) : bool :=
  let d := Date_parse (date s ++ "T00:00:00Z") in
  if match fromDate with Some f => date_lt d f | None => false end then false
  else if match toDate with Some t => date_lt t d | None => false end then false
  else true.

(** *** filterByDateRange (server.js 156-166) *)

Definition filterByDateRange (series : list record) (from to : option string)
    : list record :=
  if negb (truthy from) && negb (truthy to) then series
  else
    let fromDate := new_Date_or_null from in
    let toDate := new_Date_or_null to in
    filter (in_range fromDate toDate) series.

(** ** The route bodies *)

Record dataset : Type := {
  id : string;
  name : string;
  description : string;
  parameters : list string;
  data : list record
}.

(** [ds.parameters.includes(param)]. *)
Definition includes (ps : list string) (param : string) : bool :=
  existsb (String.eqb param) ps.

(** The string of a query parameter ([undefined] never reaches a use). *)
Definition text (q : option string) : string :=
  match q with Some s => s | None => EmptyString end.

(** [Math.min(v, ...vs)] and [Math.max(v, ...vs)] on a non-empty argument
    list: NaN as soon as one argument is NaN (up to the sign of a zero). *)
Definition min2 (a b : N) : N :=
  if isNaN a || isNaN b then NaN else if b <? a then b else a.

Definition max2 (a b : N) : N :=
  if isNaN a || isNaN b then NaN else if a <? b then b else a.

Definition Math_min (v : value N) (vs : list (value N)) : N :=
  fold_left (fun a b => min2 a (ToNumber b)) vs (ToNumber v).

Definition Math_max (v : value N) (vs : list (value N)) : N :=
  fold_left (fun a b => max2 a (ToNumber b)) vs (ToNumber v).

(** What the summary route computes before rounding (server.js 213-218). *)
Record stats : Type := {
  st_mean : value N;
  st_median : value N;
  st_stddev : value N;
  st_min : N;
  st_max : N;
  st_count : nat;
  st_anomalies : nat
}.

Definition summary_stats (v : value N) (vs : list (value N)) : stats :=
  let values := v :: vs in
  let m := mean values in
  let med := median values in
  let sdev := stddev values in
  let min := Math_min v vs in
  let max := Math_max v vs in
  let anomalies :=
    length (filter (fun v => nabs (ToNumber v - ToNumber m)
                             >? of_Z 2 * ToNumber sdev) values) in
  {| st_mean := m; st_median := med; st_stddev := sdev; st_min := min;
     st_max := max; st_count := length values; st_anomalies := anomalies |}.

(** The [summary] object of the response (server.js 223). *)
Record summary : Type := {
  sm_mean : N;
  sm_median : N;
  sm_stddev : N;
  sm_min : N;
  sm_max : N;
  sm_count : nat;
  sm_anomalies : nat
}.

Definition is_present (v : value N) : bool :=
  match v with Num _ => true | _ => false end.

(** GET /api/datasets/:id/summary, once the dataset is found
    (server.js 205-223). *)
Definition summary_route (ds : dataset) (param from to : option string)
    : outcome summary :=
  if negb (truthy param) then Status 400 "param query required (e.g., ?param=temperature)"
  else if negb (includes (parameters ds) (text param))
  then Status 400 ("Parameter " ++ text param ++ " not available. Use: "
                   ++ String.concat ", " (parameters ds))
  else
    let series := filterByDateRange (data ds) from to in
    let values := filter is_present (map (fun s => get s (text param)) series) in
    match values with
    | [] => Status 400 "No data in range"
    | v :: vs =>
        let st := summary_stats v vs in
        match toFixed_6 (st_mean st), toFixed_6 (st_median st),
              toFixed_6 (st_stddev st) with
        | Some m, Some med, Some sdev =>
            Json {| sm_mean := m; sm_median := med; sm_stddev := sdev;
                    sm_min := toFixed6 (st_min st); sm_max := toFixed6 (st_max st);
                    sm_count := st_count st; sm_anomalies := st_anomalies st |}
        | _, _, _ => TypeError
        end
    end.

(** An element of the [data] array of the trends response. *)
Record TrendPoint : Type := {
  tp_date : string;
  tp_value : value N;
  moving_average : N
}.

(** [ma[idx]]: the element, or [undefined] past the end. *)
Definition index (ma : list N) (idx : nat) : value N :=
  match nth_error ma idx with
  | Some v => Num v
  | None => Undefined
  end.

(** [series.map((s, idx) => ({date, value, moving_average}))] from index
    [idx] on (server.js 244). *)
Fixpoint trend_points (series : list record) (param : string) (ma : list N)
    (idx : nat) : option (list TrendPoint) :=
  match series with
  | [] => Some []
  | s :: rest =>
      match toFixed_6 (index ma idx) with
      | None => None
      | Some a =>
          match trend_points rest param ma (S idx) with
          | None => None
          | Some pts =>
              Some ({| tp_date := date s; tp_value := get s param;
                       moving_average := a |} :: pts)
          end
      end
  end.

(** GET /api/datasets/:id/trends, once the dataset is found; [window] is the
    integer [parseInt] read (server.js 236-245). *)
Definition trends_route (ds : dataset) (param : option string) (window : Z)
    (from to : option string) : outcome (list TrendPoint) :=
  if negb (truthy param) then Status 400 "param query required (e.g., ?param=temperature)"
  else if negb (includes (parameters ds) (text param))
  then Status 400 ("Parameter " ++ text param ++ " not available. Use: "
                   ++ String.concat ", " (parameters ds))
  else
    let series := filterByDateRange (data ds) from to in
    let values := map (fun s => get s (text param)) series in
    match movingAverage values window with
    | None => TypeError
    | Some ma =>
        match trend_points series (text param) ma 0 with
        | None => TypeError
        | Some result => Json result
        end
    end.

(** The body of the correlation response. *)
Record correlation : Type := {
  c_r : N;
  c_interpretation : string
}.

(** GET /api/datasets/:id/correlation, once the dataset is found
    (server.js 258-275). *)
Definition correlation_route (ds : dataset) (p1 p2 from to : option string)
    : outcome correlation :=
  if negb (truthy p1) || negb (truthy p2)
  then Status 400 "param1 and param2 required"
  else if negb (includes (parameters ds) (text p1))
          || negb (includes (parameters ds) (text p2))
  then Status 400 ("Parameters must be in: "
                   ++ String.concat ", " (parameters ds))
  else
    let series := filterByDateRange (data ds) from to in
    let x := map (fun s => get s (text p1)) series in
    let y := map (fun s => get s (text p2)) series in
    if Nat.eqb (length x) 0 || Nat.eqb (length y) 0
    then Status 400 "No data in range"
    else
      let r := pearson x y in
      match toFixed_6 r with
      | None => TypeError
      | Some r6 => Json {| c_r := r6; c_interpretation := interpretation r |}
      end.

(** ** The other routes *)

(** The data and export routes read [s[param]] for a name that need not be
    a field of the record.  The names every record answers to without
    having the field are the properties of [Object.prototype]. *)
Definition Object_prototype : list string :=
  ["constructor"; "__defineGetter__"; "__defineSetter__"; "hasOwnProperty";
   "__lookupGetter__"; "__lookupSetter__"; "isPrototypeOf";
   "propertyIsEnumerable"; "toString"; "valueOf"; "__proto__";
   "toLocaleString"]%string.

(** What [s[param]] is: the date of the record, one of its fields, what a
    record inherits under that name, or [undefined]. *)
Inductive property_value : Type :=
| Text (d : string)
| Field (v : value N)
| Inherited (name : string).

Definition has_own (s : record) (param : string) : bool :=
  existsb (fun kv => String.eqb (fst kv) param) (fields s).

Definition property (s : record) (param : string) : property_value :=
  if String.eqb param "date" then Text (date s)
  else if has_own s param then Field (get s param)
  else if includes Object_prototype param then Inherited param
  else Field Undefined.

(** An element of the [data] array of the data route when [param] is
    given. *)
Record DataPoint : Type := {
  dp_date : string;
  dp_value : property_value
}.

(** The [data] field of the data response: the records themselves, or one
    point per record. *)
Inductive data_body : Type :=
| Records (series : list record)
| Points (points : list DataPoint).

(** [v !== undefined ? v : null]. *)
Definition or_null (v : property_value) : property_value :=
  match v with
  | Field Undefined => Field Null
  | _ => v
  end.

(** GET /api/datasets/:id/data, once the dataset is found
    (server.js 188-193). *)
Definition data_route (ds : dataset) (param from to : option string)
    : data_body :=
  let series := filterByDateRange (data ds) from to in
  if truthy param
  then Points (map (fun s => {| dp_date := date s;
                                dp_value := or_null (property s (text param)) |})
                   series)
  else Records series.

(** An element of the answer of the list route. *)
Record listing : Type := {
  l_id : string;
  l_name : string;
  l_description : string;
  l_parameters : list string;
  l_start : string;
  l_end : string
}.

(** [d.data[i].date]: a [TypeError] ([None]) when [d.data[i]] is
    [undefined]. *)
Definition date_at (d : dataset) (i : nat) : option string :=
  match nth_error (data d) i with
  | Some s => Some (date s)
  | None => None
  end.

(** The callback of [Object.values(datasets).map] (server.js 175). *)
Definition describe (d : dataset) : option listing :=
  match date_at d 0 with
  | None => None
  | Some start =>
      match date_at d (length (data d) - 1) with
      | None => None
      | Some stop =>
          Some {| l_id := id d; l_name := name d;
                  l_description := description d;
                  l_parameters := parameters d;
                  l_start := start; l_end := stop |}
      end
  end.

Fixpoint describe_all (values : list dataset) : option (list listing) :=
  match values with
  | [] => Some []
  | d :: rest =>
      match describe d with
      | None => None
      | Some l =>
          match describe_all rest with
          | None => None
          | Some ls => Some (l :: ls)
          end
      end
  end.

(** GET /api/datasets on the datasets [Object.values] enumerates
    (server.js 174-177). *)
Definition list_route (values : list dataset) : outcome (list listing) :=
  match describe_all values with
  | None => TypeError
  | Some ls => Json ls
  end.

(** The JSON body of an upload: each field is there or not; an array is
    truthy even when empty. *)
Record payload : Type := {
  p_id : option string;
  p_name : option string;
  p_description : option string;
  p_parameters : option (list string);
  p_data : option (list record)
}.

(** [q || other] on strings. *)
Definition or_else (q : option string) (other : string) : string :=
  if truthy q then text q else other.

(** POST /api/datasets/upload after the middleware (server.js 300-303):
    [Json d] stands for storing [d] at [datasets[d.id]] and answering
    [{ok: true, id}]. *)
Definition upload_route (p : payload) : outcome dataset :=
  if negb (truthy (p_id p)) then Status 400 "Invalid payload"
  else
    match p_parameters p, p_data p with
    | Some ps, Some rows =>
        Json {| id := text (p_id p);
                name := or_else (p_name p) (text (p_id p));
                description := or_else (p_description p) "";
                parameters := ps;
                data := rows |}
    | _, _ => Status 400 "Invalid payload"
    end.

(** *** CSV export (server.js 279-295) *)

(** [String(n)] of the runtime, and [String(Object.prototype[name])]. *)
Variable Number_toString : N -> string.
Variable Inherited_toString : string -> string.

(** An element of a row as [Array.prototype.join] prints it: nothing for
    [null] and [undefined]. *)
Definition cell (v : property_value) : string :=
  match v with
  | Text d => d
  | Field (Num n) => Number_toString n
  | Field _ => EmptyString
  | Inherited name => Inherited_toString name
  end.

(** The line feed that joins the rows. *)
Definition newline : string := String (ascii_of_nat 10) EmptyString.

Definition export_rows (ds : dataset) (param : string) : list (list string) :=
  ["date"%string; param]
    :: map (fun s => [date s; cell (property s param)]) (data ds).

Definition to_csv (rows : list (list string)) : string :=
  String.concat newline (map (String.concat ",") rows).

(** GET /api/datasets/:id/export, once the dataset is found: [Json csv]
    stands for sending [csv] as an attachment. *)
Definition export_route (ds : dataset) (param : option string) : outcome string :=
  if negb (truthy param)
  then Status 400 "param query required (e.g., ?param=temperature)"
  else if negb (includes (parameters ds) (text param))
  then Status 400 ("Parameter " ++ text param ++ " not available. Use: "
                   ++ String.concat ", " (parameters ds))
  else Json (to_csv (export_rows ds (text param))).

End Engine.

Arguments record N : clear implicits.
Arguments dataset N : clear implicits.
Arguments stats N : clear implicits.
Arguments summary N : clear implicits.
Arguments TrendPoint N : clear implicits.
Arguments correlation N : clear implicits.
Arguments DataPoint N : clear implicits.
Arguments property_value N : clear implicits.
Arguments Text {N} d.
Arguments Field {N} v.
Arguments Inherited {N} name.
Arguments data_body N : clear implicits.
Arguments payload N : clear implicits.
Arguments Records {N} series.
Arguments Points {N} points.

(** ** The auth middleware (server.js 44-56) *)

(** [s.split(c)] for a one-character separator. *)
Fixpoint split_on (c : ascii) (s : string) : list string :=
  match s with
  | EmptyString => [EmptyString]
  | String a s' =>
      if Ascii.eqb a c then EmptyString :: split_on c s'
      else
        match split_on c s' with
        | w :: ws => String a w :: ws
        | [] => [String a EmptyString]
        end
  end.

(** What the middleware does: calls [next()], with the decoded user when
    there is one, or answers 401. *)
Inductive auth_outcome (U : Type) : Type :=
| Next (user : option U)
| Unauthorized (error : string).

Arguments Next {U} user.
Arguments Unauthorized {U} error.

(** [verifyIdToken t] is [None] when the awaited promise rejects. *)
Definition authMiddleware {U : Type} (firebaseAuthEnabled : bool)
    (verifyIdToken : string -> option U) (authorization : option string)
    : auth_outcome U :=
  if negb firebaseAuthEnabled then Next None
  else
    let authHeader := or_else authorization "" in
    let token := nth_error (split_on " " authHeader) 1 in
    if negb (truthy token) then Unauthorized "Missing auth token"
    else
      match verifyIdToken (text token) with
      | Some decoded => Next (Some decoded)
      | None => Unauthorized "Invalid token"
      end.

(** POST /api/datasets/upload with its middleware (server.js 298). *)
Definition upload_request {N U : Type} (firebaseAuthEnabled : bool)
    (verifyIdToken : string -> option U) (authorization : option string)
    (p : payload N) : outcome (dataset N) :=
  match authMiddleware firebaseAuthEnabled verifyIdToken authorization with
  | Next _ => upload_route p
  | Unauthorized e => Status 401 e
  end.

(** ** The synthetic series (server.js 59-84) *)

Section Generator.

Context {N : Type} {num : Number N}.
Local Open Scope num_scope.

(** What the generator takes from the runtime: [Math.sin], [Math.cos],
    [Number(x.toFixed(3))] and the result of the k-th call of
    [Math.random] since the program started. *)
Variable Math_sin Math_cos toFixed3 : N -> N.
Variable Math_random : nat -> N.

(** The record pushed at turn [i], where [iso_day i] is the ISO date of day
    [i] of the series (it depends on the clock) and [drawn] random numbers
    were drawn before the call; each turn draws three. *)
Definition generated (iso_day : nat -> string) (drawn : nat) (type : string)
    (i : nat) : option (record N) :=
  let x := of_nat i in
  let random := fun k => Math_random (drawn + 3 * i + k)%nat in
  if String.eqb type "marine_weather" then
    let temp := of_Z 24 + of_Z 3 * Math_sin (x / of_Z 8)
                + (random 0%nat - decimal 5 10) * decimal 15 10 in
    let wind := of_Z 5 + of_Z 2 * Math_sin (x / of_Z 6)
                + (random 1%nat - decimal 5 10) * decimal 12 10 in
    let wave := of_Z 1 + decimal 5 10 * nabs (Math_sin (x / of_Z 10))
                + random 2%nat * decimal 4 10 in
    Some {| date := iso_day i;
            fields := [("temperature"%string, Num (toFixed3 temp));
                       ("wind_speed"%string, Num (toFixed3 wind));
                       ("wave_height"%string, Num (toFixed3 wave))] |}
  else if String.eqb type "chemical_oceanographic" then
    let salinity := of_Z 35 + decimal 3 10 * Math_sin (x / of_Z 12)
                    + (random 0%nat - decimal 5 10) * decimal 2 10 in
    let ph := of_Z 8 + decimal 5 100 * Math_cos (x / of_Z 15)
              + (random 1%nat - decimal 5 10) * decimal 3 100 in
    let dox := of_Z 6 + decimal 6 10 * Math_cos (x / of_Z 9)
               + (random 2%nat - decimal 5 10) * decimal 3 10 in
    Some {| date := iso_day i;
            fields := [("salinity"%string, Num (toFixed3 salinity));
                       ("pH"%string, Num (toFixed3 ph));
                       ("dissolved_oxygen"%string, Num (toFixed3 dox))] |}
  else None.

Definition generateTimeSeries (iso_day : nat -> string) (drawn : nat)
    (type : string) (days : nat) : list (record N) :=
  fold_left (fun out i => match generated iso_day drawn type i with
                          | Some r => out ++ [r]
                          | None => out
                          end)
            (seq 0 days) [].

(** The two datasets the service starts with (server.js 87-102); the
    second is generated after the 270 draws of the first. *)
Definition marine_weather (iso_day : nat -> string) : dataset N :=
  {| id := "marine_weather";
     name := "Marine Weather (synthetic)";
     description := "Synthetic sea surface temperature, wind and waves for demo.";
     parameters := ["temperature"; "wind_speed"; "wave_height"]%string;
     data := generateTimeSeries iso_day 0 "marine_weather" 90 |}.

Definition chemical_oceanographic (iso_day : nat -> string) : dataset N :=
  {| id := "chemical_oceanographic";
     name := "Chemical Oceanographic (synthetic)";
     description := "Synthetic salinity, pH and dissolved oxygen for demo.";
     parameters := ["salinity"; "pH"; "dissolved_oxygen"]%string;
     data := generateTimeSeries iso_day 270 "chemical_oceanographic" 90 |}.

End Generator.

(** ** Binary64: the Numbers of the runtime *)

Module Binary64.

Local Open Scope float_scope.

(** An integer as a Number (exact below 2^53, where every use is). *)
Definition of_int (z : Z) : float :=
  match z with
  | Z0 => 0
  | Zpos _ => of_uint63 (Uint63.of_Z z)
  | Zneg p => - of_uint63 (Uint63.of_Z (Zpos p))
  end.

(** The integer nearest to [m * 2^e * 10^6], the larger one on a tie: the
    [n] of [Number.prototype.toFixed] for six digits. *)
Definition scaled_round (m : positive) (e : Z) : Z :=
  if (0 <=? e)%Z then (Zpos m * 2 ^ e * 10 ^ 6)%Z
  else ((2 * Zpos m * 10 ^ 6 + 2 ^ (- e)) / 2 ^ (1 - e))%Z.

(** [Number(x.toFixed(6))].  [toFixed] prints NaN and the infinities by
    name, and a finite [x] of magnitude below 10^21 as the decimal
    [n / 10^6] with the sign of [x]; [Number] reads the decimal back as the
    nearest binary64, which is the quotient of the two integers while
    [n < 2^53], and [x] itself from there on (the decimal is then within
    half a unit in the last place of [x]). *)
Definition to_fixed6 (x : float) : float :=
  match Prim2SF x with
  | S754_nan => x
  | S754_infinity _ => x
  | S754_zero _ => 0
  | S754_finite s m e =>
      if 1e21 <=? abs x then x
      else
        let n := scaled_round m e in
        if (n <? 2 ^ 53)%Z
        then if s then - (of_int n / 1000000) else of_int n / 1000000
        else x
  end.

#[export] Instance float_number : Number float := {|
  NaN := nan;
  of_Z := of_int;
  nadd := PrimFloat.add;
  nsub := PrimFloat.sub;
  nmul := PrimFloat.mul;
  ndiv := PrimFloat.div;
  nopp := PrimFloat.opp;
  nsqrt := PrimFloat.sqrt;
  nabs := PrimFloat.abs;
  nlt := PrimFloat.ltb;
  nle := PrimFloat.leb;
  neq := PrimFloat.eqb;
  toFixed6 := to_fixed6
|}.

(** A series of Numbers as an array of values. *)
Definition nums (l : list float) : list (value float) := map Num l.

End Binary64.

(** ** Exact: the arithmetic without rounding *)

Module Exact.

Local Open Scope R_scope.

(** A real number, or NaN.  There is no infinity: a division by zero gives
    NaN here (the engine guards each of its divisions). *)
Inductive xnum : Type :=
| XNaN
| XR (r : R).

Definition lift1 (f : R -> R) (a : xnum) : xnum :=
  match a with
  | XR x => XR (f x)
  | XNaN => XNaN
  end.

Definition lift2 (f : R -> R -> R) (a b : xnum) : xnum :=
  match a, b with
  | XR x, XR y => XR (f x y)
  | _, _ => XNaN
  end.

Definition xdiv (a b : xnum) : xnum :=
  match a, b with
  | XR x, XR y => if Req_dec_T y 0 then XNaN else XR (x / y)
  | _, _ => XNaN
  end.

Definition xsqrt (a : xnum) : xnum :=
  match a with
  | XR x => if Rlt_dec x 0 then XNaN else XR (R_sqrt.sqrt x)
  | XNaN => XNaN
  end.

Definition xlt (a b : xnum) : bool :=
  match a, b with
  | XR x, XR y => if Rlt_dec x y then true else false
  | _, _ => false
  end.

Definition xle (a b : xnum) : bool :=
  match a, b with
  | XR x, XR y => if Rle_dec x y then true else false
  | _, _ => false
  end.

Definition xeq (a b : xnum) : bool :=
  match a, b with
  | XR x, XR y => if Req_dec_T x y then true else false
  | _, _ => false
  end.

(** The decimal with six digits nearest to [x], away from zero on a tie. *)
Definition round6 (x : R) : R :=
  let n := IZR (Int_part (Rabs x * 10 ^ 6 + / 2)) in
  if Rlt_dec x 0 then - (n / 10 ^ 6) else n / 10 ^ 6.

Definition xfixed6 (a : xnum) : xnum :=
  match a with
  | XR x => if Rle_dec (10 ^ 21) (Rabs x) then XR x else XR (round6 x)
  | XNaN => XNaN
  end.

#[export] Instance real_number : Number xnum := {|
  NaN := XNaN;
  of_Z := fun z => XR (IZR z);
  nadd := lift2 Rplus;
  nsub := lift2 Rminus;
  nmul := lift2 Rmult;
  ndiv := xdiv;
  nopp := lift1 Ropp;
  nsqrt := xsqrt;
  nabs := lift1 Rabs;
  nlt := xlt;
  nle := xle;
  neq := xeq;
  toFixed6 := xfixed6
|}.

(** A series of real numbers as an array of values. *)
Definition reals (l : list R) : list (value xnum) :=
  map (fun r => Num (XR r)) l.

End Exact.

(** ** Calendar dates *)

(** [Date.parse] on the two shapes of date string the service handles:
    the date-only form [YYYY-MM-DD], which is midnight UTC of that day, and
    the same with [T00:00:00Z] appended.  Everything else is an invalid
    date here, also what the runtime reads leniently (a 30th of February,
    one-digit months, a time of day): the routes take [Date.parse] as a
    parameter, and this instance only runs the scenarios, on strings that
    name a day of the calendar in one of the two shapes. *)
Module IsoDate.

Local Open Scope Z_scope.

Definition digit (c : ascii) : option Z :=
  let n := Z.of_nat (nat_of_ascii c) in
  if (48 <=? n) && (n <=? 57) then Some (n - 48) else None.

Fixpoint digits (s : string) (acc : Z) : option Z :=
  match s with
  | EmptyString => Some acc
  | String c s' =>
      match digit c with
      | Some d => digits s' (10 * acc + d)
      | None => None
      end
  end.

Definition number_at (s : string) (start len : nat) : option Z :=
  let sub := substring start len s in
  if Nat.eqb (String.length sub) len then digits sub 0 else None.

Definition is_leap (y : Z) : bool :=
  ((y mod 4 =? 0) && negb (y mod 100 =? 0)) || (y mod 400 =? 0).

Definition days_in_month (y m : Z) : Z :=
  if m =? 2 then (if is_leap y then 29 else 28)
  else if (m =? 4) || (m =? 6) || (m =? 9) || (m =? 11) then 30
  else 31.

(** The day number of a civil date, counted from 1970-01-01. *)
Definition days_from_civil (y m d : Z) : Z :=
  let y' := if m <=? 2 then y - 1 else y in
  let era := y' / 400 in
  let yoe := y' - era * 400 in
  let doy := (153 * (if 2 <? m then m - 3 else m + 9) + 2) / 5 + d - 1 in
  let doe := yoe * 365 + yoe / 4 - yoe / 100 + doy in
  era * 146097 + doe - 719468.

Definition well_shaped (s : string) : bool :=
  (String.eqb (substring 4 1 s) "-" && String.eqb (substring 7 1 s) "-")
  && (Nat.eqb (String.length s) 10
      || (Nat.eqb (String.length s) 20
          && String.eqb (substring 10 10 s) "T00:00:00Z")).

Definition parse (s : string) : option Z :=
  if well_shaped s then
    match number_at s 0 4, number_at s 5 2, number_at s 8 2 with
    | Some y, Some m, Some d =>
        if (1 <=? m) && (m <=? 12) && (1 <=? d) && (d <=? days_in_month y m)
        then Some (days_from_civil y m d * 86400000)
        else None
    | _, _, _ => None
    end
  else None.

End IsoDate.

(** ** The dates of the synthetic series (server.js 61-67) *)

(** The [Date] methods the generator calls, after ECMA-262 (Date objects).
    A time value is a number of milliseconds since the epoch, in UTC; a
    [Date] holds a time value, or NaN ([None]) when it is invalid. *)
Module DateObject.

Local Open Scope Z_scope.

Definition msPerDay : Z := 86400000.

Definition Day (t : Z) : Z := t / msPerDay.

Definition TimeWithinDay (t : Z) : Z := t mod msPerDay.

(** The year, the month (1 to 12) and the day of the month of a day
    number: the inverse of [IsoDate.days_from_civil]. *)
Definition year_of_era (doe : Z) : Z :=
  (doe - doe / 1460 + doe / 36524 - doe / 146096) / 365.

Definition civil_from_days (n : Z) : Z * Z * Z :=
  let z := n + 719468 in
  let era := z / 146097 in
  let doe := z - era * 146097 in
  let yoe := year_of_era doe in
  let doy := doe - (365 * yoe + yoe / 4 - yoe / 100) in
  let mp := (5 * doy + 2) / 153 in
  let d := doy - (153 * mp + 2) / 5 + 1 in
  let m := if mp <? 10 then mp + 3 else mp - 9 in
  let y := yoe + era * 400 in
  (if m <=? 2 then y + 1 else y, m, d).

Definition YearFromTime (t : Z) : Z := fst (fst (civil_from_days (Day t))).

(** Months count from 0 in [MonthFromTime] and [MakeDay]. *)
Definition MonthFromTime (t : Z) : Z := snd (fst (civil_from_days (Day t))) - 1.

Definition DateFromTime (t : Z) : Z := snd (civil_from_days (Day t)).

(** [MakeDay(year, month, date)]: the day number of the first of the month,
    plus [date - 1]; [date] may be zero, negative or past the end of the
    month. *)
Definition MakeDay (year month date : Z) : Z :=
  let ym := year + month / 12 in
  let mn := month mod 12 in
  IsoDate.days_from_civil ym (mn + 1) 1 + date - 1.

Definition MakeDate (day time : Z) : Z := day * msPerDay + time.

(** [TimeClip]: NaN beyond 8.64e15 milliseconds from the epoch. *)
Definition TimeClip (t : Z) : option Z :=
  if Z.abs t <=? 8640000000000000 then Some t else None.

(** The last [n] decimal digits of [v], zeros included. *)
Definition digit_char (v : Z) : ascii := ascii_of_nat (48 + Z.to_nat (v mod 10)).

Fixpoint pad (n : nat) (v : Z) : string :=
  match n with
  | O => EmptyString
  | S n' => append (pad n' (v / 10)) (String (digit_char v) EmptyString)
  end.

(** The first ten characters of [toISOString()] on a day number:
    [YYYY-MM-DD], or the sign, six digits of the year and the month when
    the year is not one of 0 to 9999. *)
Definition iso_of_day (n : Z) : string :=
  let '(y, m, d) := civil_from_days n in
  let sep := "-"%string in
  if (0 <=? y) && (y <=? 9999)
  then append (pad 4 y) (append sep (append (pad 2 m) (append sep (pad 2 d))))
  else append (if y <? 0 then "-"%string else "+"%string)
              (append (pad 6 (Z.abs y)) (append sep (pad 2 m))).

Section LocalTimeZone.

(** [LocalTZA(t, isUTC)] of the runtime: the offset of local time from UTC,
    in milliseconds, at the UTC time [t] or at the local time [t]. *)
Variable LocalTZA : Z -> bool -> Z.

Definition LocalTime (t : Z) : Z := t + LocalTZA t true.

Definition UTC (t : Z) : Z := t - LocalTZA t false.

(** [d.getDate()]: the day of the month in local time. *)
Definition getDate (t : option Z) : option Z :=
  option_map (fun t => DateFromTime (LocalTime t)) t.

(** The time value of [d] after [d.setDate(dt)]: the same local year,
    month and time of day, with the day of the month set to [dt]. *)
Definition setDate (t dt : option Z) : option Z :=
  match t, dt with
  | Some t, Some dt =>
      let l := LocalTime t in
      TimeClip (UTC (MakeDate (MakeDay (YearFromTime l) (MonthFromTime l) dt)
                              (TimeWithinDay l)))
  | _, _ => None
  end.

(** [d.toISOString().slice(0, 10)]: the UTC date; [None] for the RangeError
    of an invalid date. *)
Definition toISOString_slice (t : option Z) : option string :=
  option_map (fun t => iso_of_day (Day t)) t.

(** [start] after line 62, when [new Date()] has the time value [now]. *)
Definition start_of (now : Z) (days : nat) : option Z :=
  setDate (Some now)
          (option_map (fun g => g - (Z.of_nat days - 1)) (getDate (Some now))).

(** [iso] at turn [i] of the loop (lines 65-67). *)
Definition iso_at (now : Z) (days i : nat) : option string :=
  let start := start_of now days in
  toISOString_slice
    (setDate start (option_map (fun g => g + Z.of_nat i) (getDate start))).

End LocalTimeZone.

End DateObject.

(** [generateTimeSeries(type, days)] called when [new Date()] has the time
    value [now], with its dates computed as the source computes them;
    [None] when [toISOString] throws. *)
Section GeneratorOnClock.

Context {N : Type} {num : Number N}.
Variable Math_sin Math_cos toFixed3 : N -> N.
Variable Math_random : nat -> N.
Variable LocalTZA : Z -> bool -> Z.

Definition generateTimeSeries_at (now : Z) (drawn : nat) (type : string)
    (days : nat) : option (list (record N)) :=
  if forallb (fun i => match DateObject.iso_at LocalTZA now days i with
                       | Some _ => true
                       | None => false
                       end)
             (seq 0 days)
  then Some (generateTimeSeries Math_sin Math_cos toFixed3 Math_random
               (fun i => text (DateObject.iso_at LocalTZA now days i))
               drawn type days)
  else None.

End GeneratorOnClock.

Unset Implicit Arguments.

(** * Reference definitions

    What the properties below are stated with: the quantities of the
    specification, written independently of the loops of the engine. *)

Section Reference.

Context {N : Type} {num : Number N}.
Local Open Scope num_scope.

(** The arithmetic mean of a non-empty array, as [mean] computes it: the
    left-to-right sum over the length. *)
Definition arith_mean (l : list (value N)) : N :=
  fold_left (fun a b => a + ToNumber b) l (of_Z 0) / of_nat (length l).

(** The trailing window of index [i]: the elements of index
    [max(0, i - W + 1)] to [i], both included. *)
Definition trailing (arr : list (value N)) (W : Z) (i : nat) : list (value N) :=
  let lo := Z.to_nat (Z.max 0 (Z.of_nat i - W + 1)) in
  map (fun j => nth j arr Undefined) (seq lo (i + 1 - lo)).

(** The sums of [pearson], each over its own series: the sum of the
    products of the deviations, and the sum of the squared deviations. *)
Definition sum_products (x y : list (value N)) (mx my : N) : N :=
  fold_left (fun acc p => acc + (ToNumber (fst p) - mx) * (ToNumber (snd p) - my))
            (combine x y) (of_Z 0).

Definition sum_squares (x : list (value N)) (m : N) : N :=
  fold_left (fun acc v => acc + (ToNumber v - m) * (ToNumber v - m)) x (of_Z 0).

(** The denominator of Pearson's r. *)
Definition pearson_denominator (x y : list (value N)) : N :=
  nsqrt (sum_squares x (ToNumber (mean x)) * sum_squares y (ToNumber (mean y))).

End Reference.

Section Bounds.

Variable Date_parse : string -> option Z.

(** A bound as the filter reads it from a query parameter: no bound when
    the parameter is missing or empty, the time value [t] when it is given
    and is a valid date. *)
Definition reads (q : option string) (bound : option Z) : Prop :=
  match bound with
  | None => truthy q = false
  | Some t => truthy q = true /\ Date_parse (text q) = Some t
  end.

(** [from <= d] when [from] is given and [d <= to] when [to] is given. *)
Definition within (from to : option Z) (d : Z) : bool :=
  match from with Some f => (f <=? d)%Z | None => true end
  && match to with Some t => (d <=? t)%Z | None => true end.

End Bounds.

(** ** Scenarios on binary64 *)

Module Scenarios.

Import Binary64.
Local Open Scope string_scope.
Local Open Scope float_scope.
Set Warnings "-inexact-float".

(** The table of the specification, read from top to bottom. *)
Definition label_by_thresholds (r : float) : string :=
  if 0.7 <=? r then "Strong positive correlation"
  else if (0.4 <=? r) && (r <? 0.7) then "Moderate positive correlation"
  else if r <=? -0.7 then "Strong negative correlation"
  else if (-0.7 <? r) && (r <=? -0.4) then "Moderate negative correlation"
  else "Weak or no correlation".

(** The series x = 1..5 and y = 5..1 of the scenario, as a dataset. *)
Definition xy_dataset : dataset float :=
  {| id := "xy"; name := "xy"; description := "";
     parameters := ["x"; "y"];
     data :=
       [ {| date := "2024-01-01"; fields := [("x", Num 1); ("y", Num 5)] |};
         {| date := "2024-01-02"; fields := [("x", Num 2); ("y", Num 4)] |};
         {| date := "2024-01-03"; fields := [("x", Num 3); ("y", Num 3)] |};
         {| date := "2024-01-04"; fields := [("x", Num 4); ("y", Num 2)] |};
         {| date := "2024-01-05"; fields := [("x", Num 5); ("y", Num 1)] |} ] |}.

(** The series 1..5 against its double 2..10, as a dataset. *)
Definition double_dataset : dataset float :=
  {| id := "double"; name := "double"; description := "";
     parameters := ["x"; "y"];
     data :=
       [ {| date := "2024-01-01"; fields := [("x", Num 1); ("y", Num 2)] |};
         {| date := "2024-01-02"; fields := [("x", Num 2); ("y", Num 4)] |};
         {| date := "2024-01-03"; fields := [("x", Num 3); ("y", Num 6)] |};
         {| date := "2024-01-04"; fields := [("x", Num 4); ("y", Num 8)] |};
         {| date := "2024-01-05"; fields := [("x", Num 5); ("y", Num 10)] |} ] |}.

(** A series whose second record has no value for "t". *)
Definition gap_dataset : dataset float :=
  {| id := "gap"; name := "gap"; description := "";
     parameters := ["t"];
     data :=
       [ {| date := "2024-01-01"; fields := [("t", Num 1)] |};
         {| date := "2024-01-02"; fields := [] |};
         {| date := "2024-01-03"; fields := [("t", Num 3)] |} ] |}.

(** A daily series of ten records, 2024-01-01 to 2024-01-10. *)
Definition on (d : string) (v : float) : record float :=
  {| date := d; fields := [("temperature", Num v)] |}.

Definition ten_days : list (record float) :=
  [ on "2024-01-01" 21; on "2024-01-02" 22; on "2024-01-03" 23;
    on "2024-01-04" 24; on "2024-01-05" 25; on "2024-01-06" 26;
    on "2024-01-07" 27; on "2024-01-08" 28; on "2024-01-09" 29;
    on "2024-01-10" 30 ]%float.

(** The time value of the date of a record, 0 when it has none. *)
Definition day_of (s : record float) : Z :=
  match IsoDate.parse (date s ++ "T00:00:00Z") with
  | Some t => t
  | None => 0
  end.

(** A series whose second record has no value for "y". *)
Definition sparse_dataset : dataset float :=
  {| id := "sparse"; name := "sparse"; description := "";
     parameters := ["x"; "y"];
     data :=
       [ {| date := "2024-01-01"; fields := [("x", Num 1); ("y", Num 2)] |};
         {| date := "2024-01-02"; fields := [("x", Num 2)] |};
         {| date := "2024-01-03"; fields := [("x", Num 3); ("y", Num 5)] |} ] |}.

(** Three records with one tiny value, 0.1 * 2^-700, whose square
    underflows to 0. *)
Definition tiny : float := 0x1.999999999999ap-704.

Definition tiny_dataset : dataset float :=
  {| id := "tiny"; name := "tiny"; description := "";
     parameters := ["t"];
     data :=
       [ {| date := "2024-01-01"; fields := [("t", Num tiny)] |};
         {| date := "2024-01-02"; fields := [("t", Num tiny)] |};
         {| date := "2024-01-03"; fields := [("t", Num tiny)] |} ] |}.

(** Two uploads: one with an id, parameters and records only, and one
    whose array of records is empty. *)
Definition buoy_payload : payload float :=
  {| p_id := Some "buoy"; p_name := None; p_description := None;
     p_parameters := Some ["x"; "y"];
     p_data := Some (data sparse_dataset) |}.

Definition empty_payload : payload float :=
  {| p_id := Some "empty"; p_name := Some "Empty"; p_description := None;
     p_parameters := Some ["x"];
     p_data := Some [] |}.

(** A verifier that knows one token. *)
Definition verify (token : string) : option string :=
  if String.eqb token "secret" then Some "uid-1" else None.

(** A time zone that is on UTC until 2024-03-31 01:00 UTC and one hour
    ahead from then on, and a clock at 2024-04-05 00:30 in that zone. *)
Definition summer_time : Z := (IsoDate.days_from_civil 2024 3 31 * 86400000
                               + 3600000)%Z.

Definition london (t : Z) (isUTC : bool) : Z :=
  if isUTC then (if t <? summer_time then 0 else 3600000)%Z
  else (if t <? summer_time + 3600000 then 0 else 3600000)%Z.

Definition utc (t : Z) (isUTC : bool) : Z := 0%Z.

Definition april_night : Z :=
  (IsoDate.days_from_civil 2024 4 4 * 86400000 + 23 * 3600000 + 1800000)%Z.

(** Stand-ins for the numeric functions of the runtime, on which the dates
    of a series do not depend. *)
Definition flat (x : float) : float := 0.
Definition half (k : nat) : float := 0.5.

(** How the runtime prints a function it inherits. *)
Definition native (name : string) : string :=
  "function " ++ name ++ "() { [native code] }".

(** [String(x)] for the whole Numbers (the ones a scenario prints); the
    empty string elsewhere. *)
Definition whole_toString (x : float) : string :=
  match Prim2SF x with
  | S754_zero _ => "0"
  | S754_finite s m e =>
      let z := if (0 <=? e)%Z then (Z.pos m * 2 ^ e)%Z
               else (Z.pos m / 2 ^ (- e))%Z in
      let exact := if (0 <=? e)%Z then true
                   else (Z.pos m mod 2 ^ (- e) =? 0)%Z in
      if exact
      then NilZero.string_of_int (Z.to_int (if s then (- z)%Z else z))
      else ""
  | _ => ""
  end.

End Scenarios.

(** ** Series of real numbers *)

Module RealSeries.

Local Open Scope R_scope.

(** The sum of [f] over a list. *)
Fixpoint sum_over {A : Type} (f : A -> R) (l : list A) : R :=
  match l with
  | [] => 0
  | a :: l' => f a + sum_over f l'
  end.

(** The number of elements, as a real. *)
Definition size {A : Type} (l : list A) : R := IZR (Z.of_nat (length l)).

(** The arithmetic mean, the sum of squared deviations from [m] and the sum
    of the products of the deviations, over the reals. *)
Definition mu (l : list R) : R := sum_over (fun v => v) l / size l.

Definition ssq (m : R) (l : list R) : R := sum_over (fun v => (v - m) * (v - m)) l.

Definition spr (mx my : R) (x y : list R) : R :=
  sum_over (fun p => (fst p - mx) * (snd p - my)) (combine x y).

(** All the values of a series are one value. *)
Definition constant (l : list R) : Prop :=
  forall a b, In a l -> In b l -> a = b.

Definition rho (x y : list R) : R :=
  let d := R_sqrt.sqrt (ssq (mu x) x * ssq (mu y) y) in
  if Req_dec_T d 0 then 0 else spr (mu x) (mu y) x y / d.

Definition least (v : R) (vs : list R) : R :=
  fold_left (fun a b => if Rlt_dec b a then b else a) vs v.

Definition greatest (v : R) (vs : list R) : R :=
  fold_left (fun a b => if Rlt_dec a b then b else a) vs v.

Fixpoint rinsert (x : R) (l : list R) : list R :=
  match l with
  | [] => [x]
  | y :: l' => if Rlt_dec 0 (x - y) then y :: rinsert x l' else x :: l
  end.

Definition rsort (l : list R) : list R := fold_right rinsert [] l.

(** The middle of a sorted series: the middle element, or the average of
    the two middle elements when their number is even. *)
Definition middle (a : list R) : R :=
  let mid := Nat.div (length a) 2 in
  if Nat.eqb (Nat.modulo (length a) 2) 0
  then (nth (mid - 1) a 0 + nth mid a 0) / 2
  else nth mid a 0.

End RealSeries.

(** ** What the routes are described with *)

Section RouteReference.

Context {N : Type}.
Variable Date_parse : string -> option Z.

(** The records of a request that are in range, and their values that are
    there. *)
Definition in_range_series (ds : dataset N) (from to : option string)
    : list (record N) :=
  filterByDateRange Date_parse (data ds) from to.

Definition present_values (ds : dataset N) (param : string)
    (from to : option string) : list (value N) :=
  filter is_present (map (fun s => get s param) (in_range_series ds from to)).

(** [s[param]] is a field of the record (a Number, null or undefined): it
    is neither the date of the record nor something the record inherits.
    There [get] is the whole of [s[param]]. *)
Definition reads_field (s : record N) (param : string) : Prop :=
  property s param = Field (get s param).

(** [v !== null && v !== undefined] on what [s[param]] is. *)
Definition is_there (v : property_value N) : bool :=
  match v with
  | Field Null | Field Undefined => false
  | _ => true
  end.

(** The dates of the first and of the last record of a dataset (the empty
    string when it has none). *)
Definition first_date (d : dataset N) : string :=
  match data d with
  | [] => EmptyString
  | s :: _ => date s
  end.

Definition last_date (d : dataset N) : string :=
  match data d with
  | [] => EmptyString
  | s :: rest => date (last rest s)
  end.

(** The entry of a dataset in the answer of the list route. *)
Definition entry (d : dataset N) : listing :=
  {| l_id := id d; l_name := name d; l_description := description d;
     l_parameters := parameters d;
     l_start := first_date d; l_end := last_date d |}.

End RouteReference.

(** [f] holds of the [n] integers from [z] on. *)
Fixpoint all_from (n : nat) (z : Z) (f : Z -> bool) : bool :=
  match n with
  | O => true
  | S n' => f z && all_from n' (z + 1)%Z f
  end.

(** What [civil_from_days] needs of a day of a 400-year era: a year of the
    era and a month in range. *)
Definition era_ok (doe : Z) : bool :=
  let yoe := DateObject.year_of_era doe in
  let doy := (doe - (365 * yoe + yoe / 4 - yoe / 100))%Z in
  let mp := ((5 * doy + 2) / 153)%Z in
  ((0 <=? yoe) && (yoe <? 400) && (0 <=? mp) && (mp <? 12))%Z.

(** The character [c] occurs in [s]. *)
Fixpoint has_char (c : ascii) (s : string) : bool :=
  match s with
  | EmptyString => false
  | String a s' => Ascii.eqb a c || has_char c s'
  end.

(** A cell that holds neither a comma nor a line feed. *)
Definition clean (s : string) : bool :=
  negb (has_char "," s) && negb (has_char (ascii_of_nat 10) s).

(** * Properties *)

(** ** Facts that hold for every Number arithmetic *)

Lemma slice_as_indices {A : Type} (d : A) (arr : list A) (lo hi : nat) :
  hi <= length arr ->
  slice arr lo hi = map (fun j => nth j arr d) (seq lo (hi - lo)).
Proof.
  unfold slice. revert lo hi.
  induction arr as [|a arr IH]; intros lo hi Hhi; simpl in Hhi.
  - assert (hi = 0) by lia. subst. now destruct lo.
  - destruct lo as [|lo].
    + rewrite Nat.sub_0_r. simpl skipn.
      destruct hi as [|hi]; [reflexivity|].
      simpl. f_equal.
      specialize (IH 0 hi ltac:(lia)). rewrite Nat.sub_0_r in IH. simpl in IH.
      rewrite IH. now rewrite <- seq_shift, map_map.
    + simpl skipn.
      destruct hi as [|hi]; [reflexivity|].
      replace (S hi - S lo) with (hi - lo) by lia.
      rewrite IH by lia.
      now rewrite <- seq_shift, map_map.
Qed.

Section EngineFacts.

Context {N : Type} {num : Number N}.
Local Open Scope num_scope.

Lemma mean_nonempty (l : list (value N)) :
  l <> [] -> mean l = Num (arith_mean l).
Proof.
  destruct l as [|v l]; [congruence|]. intros _. reflexivity.
Qed.

Lemma window_is_trailing (arr : list (value N)) (W : Z) (i : nat) :
  i < length arr ->
  slice arr (Z.to_nat (Z.max 0 (Z.of_nat i - W + 1))) (i + 1) = trailing arr W i.
Proof.
  intros Hi. unfold trailing. apply slice_as_indices. lia.
Qed.

Lemma trailing_length (arr : list (value N)) (W : Z) (i : nat) :
  (0 < W)%Z ->
  length (trailing arr W i) = Nat.min (i + 1) (Z.to_nat W).
Proof.
  intros HW. unfold trailing. rewrite length_map, length_seq. lia.
Qed.

(** The loop of [movingAverage] from index [start] on, for a positive
    window: no [TypeError], one rounded window mean pushed per index. *)
Lemma movingAverage_loop (arr : list (value N)) (W : Z) :
  (0 < W)%Z ->
  forall k start out,
    start + k <= length arr ->
    fold_left (movingAverage_step arr W) (seq start k) (Some out)
    = Some (out ++ map (fun i => toFixed6 (arith_mean (trailing arr W i)))
                       (seq start k)).
Proof.
  intros HW. induction k as [|k IH]; intros start out Hk; simpl.
  - now rewrite app_nil_r.
  - rewrite window_is_trailing by lia.
    rewrite mean_nonempty.
    + simpl. rewrite IH by lia. now rewrite <- app_assoc.
    + intros E. apply (f_equal (@length _)) in E.
      rewrite trailing_length in E by assumption. simpl in E. lia.
Qed.

Lemma movingAverage_spec (arr : list (value N)) (W : Z) :
  (0 < W)%Z ->
  movingAverage arr W
  = Some (map (fun i => toFixed6 (arith_mean (trailing arr W i)))
              (seq 0 (length arr))).
Proof.
  intros HW. unfold movingAverage.
  now rewrite movingAverage_loop by (assumption || lia).
Qed.

(** The loop of [pearson] from index [length px] on. *)
Lemma pearson_loop (mx my : N) (x : list (value N)) :
  forall (y px py : list (value N)) (num0 denx deny : N),
    length px = length py ->
    length x = length y ->
    fold_left (pearson_step (px ++ x) (py ++ y) mx my)
              (seq (length px) (length x)) (num0, denx, deny)
    = (fold_left (fun acc p => acc + (ToNumber (fst p) - mx) * (ToNumber (snd p) - my))
                 (combine x y) num0,
       fold_left (fun acc v => acc + (ToNumber v - mx) * (ToNumber v - mx)) x denx,
       fold_left (fun acc v => acc + (ToNumber v - my) * (ToNumber v - my)) y deny).
Proof.
  induction x as [|a x IH]; intros y px py num0 denx deny Hp Hxy.
  - destruct y; [reflexivity | discriminate].
  - destruct y as [|b y]; [discriminate|].
    simpl length. simpl seq. simpl fold_left.
    rewrite nth_middle.
    replace (nth (length px) (py ++ b :: y) Undefined) with b
      by (rewrite Hp; now rewrite nth_middle).
    replace (px ++ a :: x) with ((px ++ [a]) ++ x) by now rewrite <- app_assoc.
    replace (py ++ b :: y) with ((py ++ [b]) ++ y) by now rewrite <- app_assoc.
    replace (S (length px)) with (length (px ++ [a]))
      by (rewrite length_app; simpl; lia).
    apply IH.
    + rewrite !length_app. simpl. lia.
    + simpl in Hxy. lia.
Qed.

Lemma pearson_sums_spec (x y : list (value N)) :
  length x = length y ->
  pearson_sums x y
  = (sum_products x y (ToNumber (mean x)) (ToNumber (mean y)),
     sum_squares x (ToNumber (mean x)),
     sum_squares y (ToNumber (mean y))).
Proof.
  intros Hxy. unfold pearson_sums.
  exact (pearson_loop (ToNumber (mean x)) (ToNumber (mean y)) x y [] []
                      (of_Z 0) (of_Z 0) (of_Z 0) eq_refl Hxy).
Qed.

(** [pearson] on two series of one positive length. *)
Lemma pearson_unfold (x y : list (value N)) :
  length x = length y -> x <> [] ->
  pearson x y
  = if pearson_denominator x y === of_Z 0 then Num (of_Z 0)
    else Num (sum_products x y (ToNumber (mean x)) (ToNumber (mean y))
              / pearson_denominator x y).
Proof.
  intros Hxy Hx. unfold pearson.
  rewrite <- Hxy, Nat.eqb_refl. simpl.
  destruct x as [|a x]; [congruence|].
  change (Nat.eqb (length (a :: x)) 0) with false. cbv iota.
  now rewrite pearson_sums_spec.
Qed.

End EngineFacts.

(** ** The order of binary64 *)

Module Binary64Order.

Local Open Scope float_scope.

Lemma compare_cont_opp (ma mb : positive) :
  Pos.compare_cont Eq mb ma = CompOpp (Pos.compare_cont Eq ma mb).
Proof. exact (Pos.compare_antisym ma mb). Qed.

Lemma SFcompare_antisym (a b : spec_float) :
  SFcompare b a = option_map CompOpp (SFcompare a b).
Proof.
  destruct a as [sa|sa| |sa ma ea], b as [sb|sb| |sb mb eb]; simpl;
    try reflexivity;
    try (destruct sa; reflexivity);
    try (destruct sb; reflexivity);
    try (destruct sa, sb; reflexivity).
  destruct sa, sb; simpl; try reflexivity;
    rewrite (Z.compare_antisym ea eb);
    destruct (ea ?= eb)%Z; simpl; try reflexivity;
    change (PosDef.Pos.compare_cont Eq mb ma) with (Pos.compare_cont Eq mb ma);
    change (PosDef.Pos.compare_cont Eq ma mb) with (Pos.compare_cont Eq ma mb);
    rewrite (compare_cont_opp ma mb); reflexivity.
Qed.

(** A Number that compares with something is not NaN, and two Numbers that
    are not NaN are ordered one way or the other. *)
Lemma leb_total (a b : float) :
  (a <=? b) = false -> (a =? a) = true -> (b =? b) = true -> (b <? a) = true.
Proof.
  rewrite leb_spec, ltb_spec, !eqb_spec.
  unfold SFleb, SFltb, SFeqb.
  rewrite (SFcompare_antisym (Prim2SF a) (Prim2SF b)).
  destruct (Prim2SF a) as [sa|sa| |sa ma ea], (Prim2SF b) as [sb|sb| |sb mb eb];
    simpl; try discriminate; try reflexivity;
    try (destruct sa; simpl; (discriminate || reflexivity));
    try (destruct sb; simpl; (discriminate || reflexivity));
    try (destruct sa, sb; simpl; (discriminate || reflexivity)).
  intros H _ _. revert H.
  destruct sa, sb; simpl; try discriminate; try reflexivity;
    destruct (ea ?= eb)%Z; simpl; try discriminate; try reflexivity;
    destruct (Pos.compare_cont Eq ma mb); simpl; discriminate || reflexivity.
Qed.

Lemma leb_not_nan_l (a b : float) : (a <=? b) = true -> (a =? a) = true.
Proof.
  rewrite leb_spec, eqb_spec. unfold SFleb, SFeqb.
  destruct (Prim2SF a) as [sa|sa| |sa ma ea], (Prim2SF b) as [sb|sb| |sb mb eb];
    simpl; try discriminate; try reflexivity;
    try (destruct sa; reflexivity).
  all: intros _; destruct sa; rewrite Z.compare_refl, Pos.compare_cont_refl;
    reflexivity.
Qed.

Lemma leb_not_nan_r (a b : float) : (a <=? b) = true -> (b =? b) = true.
Proof.
  rewrite leb_spec, eqb_spec. unfold SFleb, SFeqb.
  destruct (Prim2SF a) as [sa|sa| |sa ma ea], (Prim2SF b) as [sb|sb| |sb mb eb];
    simpl; try discriminate; try reflexivity;
    try (destruct sb; reflexivity).
  all: intros _; destruct sb; rewrite Z.compare_refl, Pos.compare_cont_refl;
    reflexivity.
Qed.

(** Nothing is at once below a negative Number and above a positive one. *)
Lemma leb_neg_pos (r lo hi : float) :
  (lo <? 0) = true -> (0 <? hi) = true ->
  (r <=? lo) = true -> (hi <=? r) = false.
Proof.
  rewrite !ltb_spec, !leb_spec. unfold SFltb, SFleb.
  replace (Prim2SF 0) with (S754_zero false) by reflexivity.
  destruct (Prim2SF r) as [sr|sr| |sr mr er],
           (Prim2SF lo) as [sl|sl| |sl ml el],
           (Prim2SF hi) as [sh|sh| |sh mh eh];
    simpl; try discriminate; try reflexivity;
    repeat match goal with
           | s : bool |- _ => destruct s; simpl; try discriminate; try reflexivity
           end.
Qed.

(** A square root is never negative (it is NaN, or at least 0). *)
Lemma round_not_negative (mx ex : Z) (lx : location) :
  SFltb (binary_round_aux prec emax false mx ex lx) (S754_zero false) = false.
Proof.
  unfold binary_round_aux.
  destruct (shr_fexp prec emax mx ex lx) as [mrs' e'].
  destruct (shr_fexp prec emax _ e' loc_Exact) as [mrs'' e''].
  destruct (shr_m mrs'') as [|m|m]; try reflexivity.
  destruct (e'' <=? emax - prec)%Z; reflexivity.
Qed.

Lemma sqrt_not_negative (x : float) : (sqrt x <? 0) = false.
Proof.
  rewrite ltb_spec, sqrt_spec.
  replace (Prim2SF 0) with (S754_zero false) by reflexivity.
  unfold SF64sqrt, SFsqrt.
  destruct (Prim2SF x) as [s|s| |s m e]; try reflexivity.
  - destruct s; reflexivity.
  - destruct s; [reflexivity|].
    destruct (SFsqrt_core_binary prec emax (Z.pos m) e) as [[mz ez] lz].
    apply round_not_negative.
Qed.

End Binary64Order.

(** ** The engine on binary64 *)

Module OnBinary64.

Import Binary64 Binary64Order Scenarios.
Local Open Scope string_scope.
Local Open Scope float_scope.
Set Warnings "-inexact-float".

Lemma interpretation_unfold (r : float) :
  interpretation (Num r)
  = if 0.7 <=? r then "Strong positive correlation"
    else if 0.4 <=? r then "Moderate positive correlation"
    else if r <=? -0.7 then "Strong negative correlation"
    else if r <=? -0.4 then "Moderate negative correlation"
    else "Weak or no correlation".
Proof. reflexivity. Qed.

(** C1. The label of a correlation coefficient is the first match of the
    table r >= 0.7, 0.4 <= r < 0.7, r <= -0.7, -0.7 < r <= -0.4, otherwise;
    an r <= -0.7 is never caught by a positive branch; and x = 1..5 against
    y = 5..1 gives r = -1, "Strong negative correlation". *)
Theorem interpretation_first_match :
  (forall r : float, interpretation (Num r) = label_by_thresholds r)
  /\ (forall r : float,
        (r <=? -0.7) = true ->
        interpretation (Num r) = "Strong negative correlation")
  /\ pearson (nums [1; 2; 3; 4; 5]) (nums [5; 4; 3; 2; 1]) = Num (-1)
  /\ (forall Date_parse,
        correlation_route Date_parse xy_dataset (Some "x") (Some "y") None None
        = Json {| c_r := -1;
                  c_interpretation := "Strong negative correlation" |}).
Proof.
  split; [|split; [|split]].
  - intros r. rewrite interpretation_unfold. unfold label_by_thresholds.
    destruct (0.7 <=? r) eqn:H7; [reflexivity|].
    destruct (0.4 <=? r) eqn:H4.
    + rewrite (@leb_total _ _ H7 eq_refl (@leb_not_nan_r _ _ H4)). reflexivity.
    + simpl. destruct (r <=? -0.7) eqn:N7; [reflexivity|].
      destruct (r <=? -0.4) eqn:N4.
      * rewrite (@leb_total _ _ N7 (@leb_not_nan_l _ _ N4) eq_refl). reflexivity.
      * now rewrite andb_false_r.
  - intros r Hr. rewrite interpretation_unfold.
    rewrite (@leb_neg_pos r (-0.7) 0.7 eq_refl eq_refl Hr).
    rewrite (@leb_neg_pos r (-0.7) 0.4 eq_refl eq_refl Hr).
    now rewrite Hr.
  - vm_compute. reflexivity.
  - intros Date_parse. vm_compute. reflexivity.
Qed.

Lemma interpretation_first_match_witness :
  interpretation (Num (-1)) = "Strong negative correlation".
Proof.
  apply (proj1 (proj2 interpretation_first_match) (-1)).
  vm_compute. reflexivity.
Defined.

(** The other scenarios of the specification, run on the route bodies:
    the summary of 1..5, and the correlation of 1..5 with its double. *)
Lemma summary_scenario :
  forall Date_parse,
    summary_route Date_parse xy_dataset (Some "x") None None
    = Json {| sm_mean := 3; sm_median := 3; sm_stddev := 1.414214;
              sm_min := 1; sm_max := 5; sm_count := 5; sm_anomalies := 0 |}.
Proof. intros Date_parse. vm_compute. reflexivity. Qed.

Lemma positive_correlation_scenario :
  forall Date_parse,
    correlation_route Date_parse double_dataset (Some "x") (Some "y") None None
    = Json {| c_r := 1; c_interpretation := "Strong positive correlation" |}.
Proof. intros Date_parse. vm_compute. reflexivity. Qed.






(** On binary64, a standard deviation is never negative. *)
Lemma stddev_not_negative (l : list float) :
  l <> [] ->
  exists s : float, stddev (nums l) = Num s /\ (s <? 0) = false.
Proof.
  intros Hl. destruct l as [|v l]; [congruence|].
  unfold stddev.
  change (Nat.eqb (length (nums (v :: l))) 0) with false. cbv iota zeta.
  eexists. split; [reflexivity|]. apply sqrt_not_negative.
Qed.

(** On binary64, a constant series need not have a zero denominator: the
    r of [0.1, 0.1, 0.1] with itself is 1, and with [1, 2, 4] it is a tiny
    number that is not 0. *)
Lemma pearson_of_constant_series :
  pearson (nums [0.1; 0.1; 0.1]) (nums [0.1; 0.1; 0.1]) = Num 1
  /\ pearson (nums [0.1; 0.1; 0.1]) (nums [1; 2; 4])
     = Num 1.1868783374443499e-16.
Proof. split; vm_compute; reflexivity. Qed.


(** On binary64, the median of two large values overflows past the
    maximum. *)
Lemma median_overflow :
  let st := summary_stats (Num 1e308) [Num 1e308] in
  st_median st = Num infinity /\ st_max st = 1e308
  /\ (infinity <=? 1e308) = false.
Proof. repeat split; vm_compute; reflexivity. Qed.

(** C3, as the code has it.  For a positive window, [movingAverage] returns
    one element per input element; the element of index [i] is the mean of
    the trailing window [max(0, i - W + 1) .. i], which has [min(i + 1, W)]
    elements, rounded to six decimals by [toFixed(6)]; and [1..7] with
    window 3 gives [1, 1.5, 2, 3, 4, 5, 6]. *)
Theorem movingAverage_rounded_window_mean :
  (forall (a : list float) (W : Z),
      (0 < W)%Z ->
      exists out,
        movingAverage (nums a) W = Some out
        /\ length out = length a
        /\ forall i, (i < length a)%nat ->
             nth_error out i
             = Some (to_fixed6 (arith_mean (trailing (nums a) W i)))
             /\ length (trailing (nums a) W i) = Nat.min (i + 1) (Z.to_nat W))
  /\ movingAverage (nums [1; 2; 3; 4; 5; 6; 7]) 3
     = Some [1; 1.5; 2; 3; 4; 5; 6].
Proof.
  split; [|vm_compute; reflexivity].
  intros a W HW.
  exists (map (fun i => to_fixed6 (arith_mean (trailing (nums a) W i)))
              (seq 0 (length (nums a)))).
  split; [exact (movingAverage_spec (nums a) W HW)|].
  assert (Hlen : length (nums a) = length a) by (unfold nums; apply length_map).
  split; [now rewrite length_map, length_seq|].
  intros i Hi. split; [|now apply trailing_length].
  rewrite nth_error_map, nth_error_seq.
  rewrite Hlen.
  destruct (Nat.ltb_spec i (length a)) as [_|Hge]; [reflexivity | lia].
Qed.

Lemma movingAverage_rounded_window_mean_witness :
  exists out,
    movingAverage (nums [1; 2; 3; 4; 5; 6; 7]) 3 = Some out
    /\ length out = 7%nat
    /\ forall i, (i < 7)%nat ->
         nth_error out i
         = Some (to_fixed6 (arith_mean (trailing (nums [1; 2; 3; 4; 5; 6; 7]) 3 i)))
         /\ length (trailing (nums [1; 2; 3; 4; 5; 6; 7]) 3 i)
            = Nat.min (i + 1) (Z.to_nat 3).
Proof.
  apply (proj1 movingAverage_rounded_window_mean [1; 2; 3; 4; 5; 6; 7] 3%Z).
  reflexivity.
Defined.

(** C3, as stated, fails: the third moving average of [1, 2, 2] with
    window 3 is 1.666667, not the mean 1.6666666666666667 of the window. *)
Lemma movingAverage_not_full_precision :
  movingAverage (nums [1; 2; 2]) 3 = Some [1; 1.5; 1.666667]
  /\ arith_mean (trailing (nums [1; 2; 2]) 3 2) = 1.6666666666666667
  /\ (1.666667 =? 1.6666666666666667) = false.
Proof. repeat split; vm_compute; reflexivity. Qed.

(** C4, as stated, fails on binary64: the r of [0, 0.3] against [0, 1.7]
    is 1.0000000000000002. *)
Lemma pearson_above_one :
  pearson (nums [0; 0.3]) (nums [0; 1.7]) = Num 1.0000000000000002
  /\ (1.0000000000000002 <=? 1) = false.
Proof. split; vm_compute; reflexivity. Qed.

(** C5, as stated, fails on binary64: the mean of [0.1, 0.1, 0.1] is
    0.10000000000000002, above the maximum 0.1. *)
Lemma mean_above_max :
  let st := summary_stats (Num 0.1) [Num 0.1; Num 0.1] in
  st_mean st = Num 0.10000000000000002
  /\ st_max st = 0.1
  /\ (0.10000000000000002 <=? 0.1) = false.
Proof. repeat split; vm_compute; reflexivity. Qed.

(** C6, as stated, fails on binary64: the values of [0.1, 0.1, 0.1] are
    identical and their standard deviation is not 0. *)
Lemma stddev_of_constant_not_zero :
  stddev (nums [0.1; 0.1; 0.1]) = Num 1.3877787807814457e-17
  /\ (1.3877787807814457e-17 =? 0) = false.
Proof. split; vm_compute; reflexivity. Qed.

(** C9, as stated, fails on binary64: with a = 3 and b = 0, the r of
    [1, 2, 3] against [1, 2, 4] changes in its last digits. *)
Lemma pearson_affine_changes_r :
  (0 <? 3) = true
  /\ pearson (nums [1; 2; 3]) (nums (map (fun v => 3 * v + 0) [1; 2; 4]))
     = Num 0.98198050606196574
  /\ pearson (nums [1; 2; 3]) (nums [1; 2; 4]) = Num 0.98198050606196585
  /\ (0.98198050606196574 =? 0.98198050606196585) = false.
Proof. repeat split; vm_compute; reflexivity. Qed.

(** C8 fails on the code: with window 2, the moving averages of the
    records around the missing value are NaN, not the averages 1 and 3 of
    the values that are there. *)
Lemma trends_absent_value_gives_NaN :
  forall Date_parse,
    trends_route Date_parse gap_dataset (Some "t") 2 None None
    = Json [ {| tp_date := "2024-01-01"; tp_value := Num 1; moving_average := 1 |};
             {| tp_date := "2024-01-02"; tp_value := Undefined;
                moving_average := nan |};
             {| tp_date := "2024-01-03"; tp_value := Num 3;
                moving_average := nan |} ].
Proof. intros Date_parse. vm_compute. reflexivity. Qed.

End OnBinary64.

(** ** The date-range filter *)

Section DateRangeFacts.

Context {N : Type} {num : Number N}.
Variable Date_parse : string -> option Z.

Lemma date_lt_invalid_r (d : option Z) : date_lt d None = false.
Proof. now destruct d. Qed.

Lemma date_lt_invalid_l (d : option Z) : date_lt None d = false.
Proof. reflexivity. Qed.

Lemma filter_all {A : Type} (l : list A) : filter (fun _ => true) l = l.
Proof. induction l as [|a l IH]; simpl; congruence. Qed.

Lemma new_Date_reads (q : option string) (bound : option Z) :
  reads Date_parse q bound ->
  new_Date_or_null Date_parse q = option_map Some bound.
Proof.
  unfold reads, new_Date_or_null.
  destruct bound as [t|]; simpl.
  - intros [Ht Hp]. destruct q as [s|]; [|discriminate].
    rewrite Ht. simpl in Hp. now rewrite Hp.
  - intros Ht. destruct q as [s|]; [|reflexivity]. now rewrite Ht.
Qed.

Lemma in_range_within (from to : option Z) (s : record N) (d : Z) :
  Date_parse (date s ++ "T00:00:00Z") = Some d ->
  in_range Date_parse (option_map Some from) (option_map Some to) s
  = within from to d.
Proof.
  intros Hd. unfold in_range, within. rewrite Hd.
  destruct from as [f|], to as [t|]; simpl;
    rewrite ?Z.ltb_antisym;
    repeat match goal with
           | |- context [(?a <=? ?b)%Z] => destruct (a <=? b)%Z; simpl
           end; reflexivity.
Qed.

Lemma filterByDateRange_within (series : list (record N))
    (from to : option string) (f t : option Z) (day : record N -> Z) :
  (forall s, In s series -> Date_parse (date s ++ "T00:00:00Z") = Some (day s)) ->
  reads Date_parse from f ->
  reads Date_parse to t ->
  filterByDateRange Date_parse series from to
  = filter (fun s => within f t (day s)) series.
Proof.
  intros Hday Hf Ht. unfold filterByDateRange.
  destruct (negb (truthy from) && negb (truthy to)) eqn:E.
  - apply andb_prop in E. destruct E as [Ef Et].
    apply negb_true_iff in Ef, Et.
    destruct f as [f|]; [destruct Hf; congruence|].
    destruct t as [t|]; [destruct Ht; congruence|].
    symmetry. apply filter_all.
  - rewrite (new_Date_reads from f Hf), (new_Date_reads to t Ht).
    apply filter_ext_in. intros s Hs. now apply in_range_within, Hday.
Qed.

(** A bound that is not a valid date lets every record through. *)
Lemma in_range_invalid_from (toDate : option (option Z)) (s : record N) :
  in_range Date_parse (Some None) toDate s = in_range Date_parse None toDate s.
Proof. unfold in_range. now rewrite date_lt_invalid_r. Qed.

Lemma in_range_invalid_to (fromDate : option (option Z)) (s : record N) :
  in_range Date_parse fromDate (Some None) s = in_range Date_parse fromDate None s.
Proof. unfold in_range. reflexivity. Qed.

Lemma in_range_no_bound (s : record N) : in_range Date_parse None None s = true.
Proof. reflexivity. Qed.

Lemma new_Date_falsy (q : option string) :
  truthy q = false -> new_Date_or_null Date_parse q = None.
Proof.
  intros Hq. unfold new_Date_or_null. destruct q; [now rewrite Hq | reflexivity].
Qed.

Lemma new_Date_invalid (q : string) :
  truthy (Some q) = true -> Date_parse q = None ->
  new_Date_or_null Date_parse (Some q) = Some None.
Proof. intros Hq Hp. unfold new_Date_or_null. now rewrite Hq, Hp. Qed.

Lemma filterByDateRange_invalid_from (series : list (record N))
    (from : string) (to : option string) :
  Date_parse from = None ->
  filterByDateRange Date_parse series (Some from) to
  = filterByDateRange Date_parse series None to.
Proof.
  intros Hp. unfold filterByDateRange.
  rewrite (new_Date_falsy None eq_refl).
  change (truthy None) with false.
  destruct (truthy (Some from)) eqn:Ef.
  - rewrite (new_Date_invalid _ Ef Hp). simpl negb. simpl andb.
    destruct (negb (truthy to)) eqn:Et.
    + apply negb_true_iff in Et. rewrite (new_Date_falsy to Et).
      rewrite (filter_ext _ (fun _ => true)); [apply filter_all|].
      intros s. now rewrite in_range_invalid_from.
    + apply filter_ext. intros s. apply in_range_invalid_from.
  - now rewrite (new_Date_falsy (Some from) Ef).
Qed.

Lemma filterByDateRange_invalid_to (series : list (record N))
    (from : option string) (to : string) :
  Date_parse to = None ->
  filterByDateRange Date_parse series from (Some to)
  = filterByDateRange Date_parse series from None.
Proof.
  intros Hp. unfold filterByDateRange.
  rewrite (new_Date_falsy None eq_refl).
  change (truthy None) with false.
  destruct (truthy (Some to)) eqn:Et.
  - rewrite (new_Date_invalid _ Et Hp). simpl negb.
    rewrite andb_false_r, andb_true_r.
    destruct (negb (truthy from)) eqn:Ef.
    + apply negb_true_iff in Ef. rewrite (new_Date_falsy from Ef).
      rewrite (filter_ext _ (fun _ => true)); [apply filter_all|].
      intros s. reflexivity.
    + apply filter_ext. intros s. apply in_range_invalid_to.
  - now rewrite (new_Date_falsy (Some to) Et).
Qed.

End DateRangeFacts.

Module OnDates.

Import Binary64 Scenarios.
Local Open Scope string_scope.

(** C7. The date-range filter keeps, in their order, exactly the records
    whose date [d] has [from <= d] when [from] is given and [d <= to] when
    [to] is given; without bounds (both missing or empty) it returns its
    input; and from 2024-01-03 to 2024-01-05 over ten days it returns the
    three records of those days. *)
Theorem filterByDateRange_inclusive :
  (forall (N : Type) (Date_parse : string -> option Z)
          (series : list (record N)) (from to : option string)
          (f t : option Z) (day : record N -> Z),
      (forall s, In s series ->
                 Date_parse (date s ++ "T00:00:00Z") = Some (day s)) ->
      reads Date_parse from f ->
      reads Date_parse to t ->
      filterByDateRange Date_parse series from to
      = filter (fun s => within f t (day s)) series)
  /\ (forall (N : Type) (Date_parse : string -> option Z)
             (series : list (record N)) (from to : option string),
        truthy from = false ->
        truthy to = false ->
        filterByDateRange Date_parse series from to = series)
  /\ filterByDateRange IsoDate.parse ten_days
                       (Some "2024-01-03") (Some "2024-01-05")
     = [ on "2024-01-03" 23; on "2024-01-04" 24; on "2024-01-05" 25 ]%float.
Proof.
  split; [|split].
  - intros N Date_parse. apply filterByDateRange_within.
  - intros N Date_parse series from to Hf Ht.
    unfold filterByDateRange. now rewrite Hf, Ht.
  - vm_compute. reflexivity.
Qed.

Lemma filterByDateRange_inclusive_witness :
  filterByDateRange IsoDate.parse ten_days
                    (Some "2024-01-03") (Some "2024-01-05")
  = filter (fun s => within (Some 1704240000000%Z) (Some 1704412800000%Z)
                            (day_of s))
           ten_days.
Proof.
  apply (proj1 filterByDateRange_inclusive float IsoDate.parse ten_days
               (Some "2024-01-03") (Some "2024-01-05")
               (Some 1704240000000%Z) (Some 1704412800000%Z) day_of).
  - intros s Hs. simpl in Hs.
    repeat (destruct Hs as [<- | Hs]; [vm_compute; reflexivity|]).
    contradiction.
  - split; vm_compute; reflexivity.
  - split; vm_compute; reflexivity.
Defined.

(** C10. A bound that does not parse as a date is treated as no bound:
    every comparison with it is false, and the filter returns what it
    returns without that bound. *)
Theorem invalid_bound_is_no_bound :
  forall (N : Type) (Date_parse : string -> option Z)
         (series : list (record N)),
    (forall (from : string) (to : option string),
        Date_parse from = None ->
        filterByDateRange Date_parse series (Some from) to
        = filterByDateRange Date_parse series None to)
    /\ (forall (from : option string) (to : string),
          Date_parse to = None ->
          filterByDateRange Date_parse series from (Some to)
          = filterByDateRange Date_parse series from None)
    /\ (forall d : option Z, date_lt d None = false /\ date_lt None d = false).
Proof.
  intros N Date_parse series. split; [|split].
  - intros from to. apply filterByDateRange_invalid_from.
  - intros from to. apply filterByDateRange_invalid_to.
  - intros d. split; [apply date_lt_invalid_r | reflexivity].
Qed.

Lemma invalid_bound_is_no_bound_witness :
  filterByDateRange IsoDate.parse ten_days (Some "next tuesday")
                    (Some "2024-01-02")
  = filterByDateRange IsoDate.parse ten_days None (Some "2024-01-02")
  /\ filterByDateRange IsoDate.parse ten_days (Some "2024-01-09")
                       (Some "2024-13-45")
     = filterByDateRange IsoDate.parse ten_days (Some "2024-01-09") None.
Proof.
  split.
  - apply (proj1 (invalid_bound_is_no_bound float IsoDate.parse ten_days)).
    vm_compute. reflexivity.
  - apply (proj1 (proj2 (invalid_bound_is_no_bound float IsoDate.parse ten_days))).
    vm_compute. reflexivity.
Defined.

End OnDates.

(** ** The engine in exact arithmetic *)

Module OnExact.

Import Exact RealSeries.
Local Open Scope R_scope.

Lemma size_pos {A : Type} (l : list A) : l <> [] -> 0 < size l.
Proof.
  intros Hl. unfold size. apply IZR_lt.
  destruct l; [congruence | simpl; lia].
Qed.

Lemma size_cons {A : Type} (a : A) (l : list A) : size (a :: l) = 1 + size l.
Proof.
  unfold size. simpl length. rewrite Nat2Z.inj_succ, succ_IZR. lra.
Qed.

Lemma fold_sum {A : Type} (f : A -> R) (l : list A) (acc : R) :
  fold_left (fun a v => a + f v) l acc = acc + sum_over f l.
Proof.
  revert acc. induction l as [|v l IH]; intros acc; simpl.
  - lra.
  - rewrite IH. lra.
Qed.

(** The folds of the engine over a series of reals. *)
Lemma fold_exact {A : Type} (f : A -> R) (l : list A)
    (h : A -> value xnum) (step : xnum -> value xnum -> xnum) (acc : R) :
  (forall a v, step (XR a) (h v) = XR (a + f v)) ->
  fold_left step (map h l) (XR acc) = XR (acc + sum_over f l).
Proof.
  intros Hstep. revert acc. induction l as [|v l IH]; intros acc; simpl.
  - f_equal. lra.
  - rewrite Hstep, IH. f_equal. lra.
Qed.

Lemma length_nums (l : list R) : length (reals l) = length l.
Proof. apply length_map. Qed.

Lemma nums_nonempty (l : list R) : l <> [] -> reals l <> [].
Proof. destruct l; [congruence | discriminate]. Qed.

Lemma xdiv_size {A : Type} (s : R) (l : list A) :
  l <> [] -> xdiv (XR s) (XR (size l)) = XR (s / size l).
Proof.
  intros Hl. unfold xdiv.
  destruct (Req_dec_T (size l) 0) as [E|_]; [|reflexivity].
  pose proof (size_pos _ Hl). lra.
Qed.

Lemma mean_exact (l : list R) :
  l <> [] -> mean (reals l) = Num (XR (mu l)).
Proof.
  intros Hl. rewrite (mean_nonempty _ (nums_nonempty _ Hl)). f_equal.
  unfold arith_mean, reals.
  change (of_Z 0) with (XR 0).
  rewrite (fold_exact (fun v => v)) by reflexivity.
  unfold of_nat. rewrite length_map.
  change (of_Z (Z.of_nat (length l))) with (XR (size l)).
  change (XR (0 + sum_over (fun v => v) l) / XR (size l))%num
    with (xdiv (XR (0 + sum_over (fun v => v) l)) (XR (size l))).
  rewrite xdiv_size by assumption. unfold mu. f_equal. f_equal. lra.
Qed.

Lemma sum_squares_exact (m : R) (l : list R) :
  sum_squares (reals l) (XR m) = XR (ssq m l).
Proof.
  unfold sum_squares, reals.
  change (of_Z 0) with (XR 0).
  rewrite (fold_exact (fun v => (v - m) * (v - m))) by reflexivity.
  unfold ssq. f_equal. lra.
Qed.

Lemma square_nonneg (x : R) : 0 <= x * x.
Proof. nra. Qed.

Lemma square_zero (x : R) : x * x = 0 -> x = 0.
Proof. nra. Qed.

Lemma ssq_nonneg (m : R) (l : list R) : 0 <= ssq m l.
Proof.
  unfold ssq. induction l as [|v l IH]; simpl; [lra|].
  pose proof (square_nonneg (v - m)). lra.
Qed.

Lemma ssq_zero (m : R) (l : list R) :
  ssq m l = 0 <-> forall v, In v l -> v = m.
Proof.
  unfold ssq. induction l as [|v l IH]; simpl.
  - split; [intros _ w [] | reflexivity].
  - pose proof (ssq_nonneg m l) as Hl. unfold ssq in Hl. split.
    + intros H. pose proof (square_nonneg (v - m)) as Hv.
      intros w [<-|Hw].
      * assert (E : (v - m) * (v - m) = 0) by lra.
        apply square_zero in E. lra.
      * apply IH; [lra | assumption].
    + intros H. rewrite (proj2 IH) by (intros w Hw; apply H; now right).
      rewrite (H v) by now left. lra.
Qed.

Lemma sum_constant (c : R) (l : list R) :
  (forall v, In v l -> v = c) -> sum_over (fun v => v) l = size l * c.
Proof.
  induction l as [|v l IH]; intros H.
  - unfold size. simpl. lra.
  - simpl sum_over. rewrite size_cons, IH by (intros w Hw; apply H; now right).
    rewrite (H v) by now left. lra.
Qed.

Lemma mu_constant (c : R) (l : list R) :
  l <> [] -> (forall v, In v l -> v = c) -> mu l = c.
Proof.
  intros Hl H. unfold mu. rewrite (sum_constant c l H).
  pose proof (size_pos _ Hl). field. lra.
Qed.

Lemma xsqrt_nonneg (x : R) : 0 <= x -> xsqrt (XR x) = XR (R_sqrt.sqrt x).
Proof.
  intros Hx. unfold xsqrt. destruct (Rlt_dec x 0); [lra | reflexivity].
Qed.

Lemma stddev_exact (l : list R) :
  l <> [] ->
  stddev (reals l) = Num (XR (R_sqrt.sqrt (ssq (mu l) l / size l))).
Proof.
  intros Hl. unfold stddev. rewrite length_nums.
  destruct l as [|v l]; [congruence|].
  change (Nat.eqb (length (v :: l)) 0) with false. cbv iota.
  rewrite mean_exact by assumption. simpl ToNumber. f_equal.
  change (fold_left _ (reals (v :: l)) (of_Z 0))
    with (sum_squares (reals (v :: l)) (XR (mu (v :: l)))).
  rewrite sum_squares_exact.
  change (of_nat (length (v :: l))) with (XR (size (v :: l))).
  change (nsqrt (XR (ssq (mu (v :: l)) (v :: l)) / XR (size (v :: l)))%num)
    with (xsqrt (xdiv (XR (ssq (mu (v :: l)) (v :: l))) (XR (size (v :: l))))).
  rewrite xdiv_size by assumption.
  apply xsqrt_nonneg.
  pose proof (ssq_nonneg (mu (v :: l)) (v :: l)).
  pose proof (size_pos _ Hl).
  apply Rmult_le_pos; [assumption|]. left. now apply Rinv_0_lt_compat.
Qed.

(** In exact arithmetic the standard deviation of a non-empty series is the
    square root of the mean of the squared deviations from the mean
    (denominator N); it is not negative, and it is 0 exactly when all the
    values are identical. *)
Lemma stddev_exact_zero_iff_constant (l : list R) :
  l <> [] ->
  exists s : R,
    stddev (reals l) = Num (XR s)
    /\ s = R_sqrt.sqrt (ssq (mu l) l / size l)
    /\ 0 <= s
    /\ (s = 0 <-> constant l).
Proof.
  intros Hl. exists (R_sqrt.sqrt (ssq (mu l) l / size l)).
  split; [now apply stddev_exact|]. split; [reflexivity|].
  split; [apply sqrt_pos|].
  pose proof (size_pos l Hl) as Hn.
  pose proof (ssq_nonneg (mu l) l) as Hs.
  assert (Hq : 0 <= ssq (mu l) l / size l).
  { apply Rmult_le_pos; [assumption|]. left. now apply Rinv_0_lt_compat. }
  split.
  - intros H0. apply sqrt_eq_0 in H0; [|assumption].
    assert (Hz : ssq (mu l) l = 0).
    { apply (Rmult_eq_compat_r (size l)) in H0.
      unfold Rdiv in H0. rewrite Rmult_assoc, Rinv_l, Rmult_1_r, Rmult_0_l in H0
        by lra. assumption. }
    intros a b Ha Hb.
    rewrite (proj1 (ssq_zero (mu l) l) Hz a Ha).
    now rewrite (proj1 (ssq_zero (mu l) l) Hz b Hb).
  - intros Hc.
    destruct l as [|c l]; [congruence|].
    assert (Hall : forall v, In v (c :: l) -> v = c).
    { intros v Hv. apply Hc; [assumption | now left]. }
    rewrite (mu_constant c (c :: l) Hl Hall).
    rewrite (proj2 (ssq_zero c (c :: l)) Hall).
    unfold Rdiv. rewrite Rmult_0_l. apply sqrt_0.
Qed.

(** *** Pearson's r over the reals *)

Lemma combine_nums (x y : list R) :
  combine (reals x) (reals y)
  = map (fun p => (Num (XR (fst p)), Num (XR (snd p)))) (combine x y).
Proof.
  revert y. induction x as [|a x IH]; intros [|b y]; simpl; try reflexivity.
  now rewrite <- IH.
Qed.

Lemma fold_exact_pairs (f : R * R -> R) (l : list (R * R))
    (h : R * R -> value xnum * value xnum)
    (step : xnum -> value xnum * value xnum -> xnum) (acc : R) :
  (forall a v, step (XR a) (h v) = XR (a + f v)) ->
  fold_left step (map h l) (XR acc) = XR (acc + sum_over f l).
Proof.
  intros Hstep. revert acc. induction l as [|v l IH]; intros acc; simpl.
  - f_equal. lra.
  - rewrite Hstep, IH. f_equal. lra.
Qed.

Lemma sum_products_exact (mx my : R) (x y : list R) :
  sum_products (reals x) (reals y) (XR mx) (XR my) = XR (spr mx my x y).
Proof.
  unfold sum_products. rewrite combine_nums.
  change (of_Z 0) with (XR 0).
  rewrite (fold_exact_pairs (fun p => (fst p - mx) * (snd p - my)))
    by reflexivity.
  unfold spr. f_equal. lra.
Qed.

Lemma pearson_denominator_exact (x y : list R) :
  x <> [] -> y <> [] ->
  pearson_denominator (reals x) (reals y)
  = XR (R_sqrt.sqrt (ssq (mu x) x * ssq (mu y) y)).
Proof.
  intros Hx Hy. unfold pearson_denominator.
  rewrite !mean_exact by assumption. simpl ToNumber.
  rewrite !sum_squares_exact.
  apply xsqrt_nonneg.
  apply Rmult_le_pos; apply ssq_nonneg.
Qed.

Lemma pearson_exact (x y : list R) :
  length x = length y -> x <> [] ->
  pearson (reals x) (reals y) = Num (XR (rho x y)).
Proof.
  intros Hxy Hx.
  assert (Hy : y <> []) by (destruct x, y; simpl in *; congruence).
  rewrite pearson_unfold
    by (rewrite ?length_nums; auto using nums_nonempty).
  rewrite pearson_denominator_exact by assumption.
  rewrite !mean_exact by assumption. simpl ToNumber.
  rewrite sum_products_exact.
  unfold rho.
  change (XR (R_sqrt.sqrt (ssq (mu x) x * ssq (mu y) y)) === of_Z 0)%num
    with (xeq (XR (R_sqrt.sqrt (ssq (mu x) x * ssq (mu y) y))) (XR 0)).
  unfold xeq.
  destruct (Req_dec_T (R_sqrt.sqrt (ssq (mu x) x * ssq (mu y) y)) 0) as [E|E];
    [reflexivity|].
  change (XR (spr (mu x) (mu y) x y)
          / XR (R_sqrt.sqrt (ssq (mu x) x * ssq (mu y) y)))%num
    with (xdiv (XR (spr (mu x) (mu y) x y))
               (XR (R_sqrt.sqrt (ssq (mu x) x * ssq (mu y) y)))).
  unfold xdiv.
  destruct (Req_dec_T (R_sqrt.sqrt (ssq (mu x) x * ssq (mu y) y)) 0);
    [contradiction | reflexivity].
Qed.

(** *** The Cauchy-Schwarz inequality *)

Lemma square_lt (u t : R) : 0 <= u -> u < t -> u * u < t * t.
Proof. intros. nra. Qed.

Lemma cross_term_bound (S A B a b : R) :
  0 <= A -> 0 <= B -> S * S <= A * B ->
  2 * S * (a * b) <= A * (b * b) + B * (a * a).
Proof.
  intros HA HB HS.
  destruct (Rle_dec (2 * S * (a * b)) (A * (b * b) + B * (a * a))) as [H|H];
    [assumption|].
  exfalso. apply Rnot_le_lt in H.
  pose proof (square_nonneg a) as Ha.
  pose proof (square_nonneg b) as Hb.
  assert (H0 : 0 <= A * (b * b) + B * (a * a)).
  { pose proof (Rmult_le_pos _ _ HA Hb).
    pose proof (Rmult_le_pos _ _ HB Ha). lra. }
  pose proof (square_lt _ _ H0 H) as H1.
  pose proof (square_nonneg (a * b)) as Hab.
  pose proof (Rmult_le_compat_r _ _ _ Hab HS) as H2.
  pose proof (square_nonneg (A * (b * b) - B * (a * a))) as H3.
  lra.
Qed.

Lemma cauchy_schwarz_step (S A B a b : R) :
  0 <= A -> 0 <= B -> S * S <= A * B ->
  (a * b + S) * (a * b + S) <= (a * a + A) * (b * b + B).
Proof.
  intros HA HB HS. pose proof (cross_term_bound S A B a b HA HB HS). nra.
Qed.

Lemma ssq_combine_l (m : R) (x y : list R) :
  length x = length y ->
  ssq m x = sum_over (fun p => (fst p - m) * (fst p - m)) (combine x y).
Proof.
  unfold ssq. revert y.
  induction x as [|a x IH]; intros [|b y] H; simpl in *; try congruence.
  f_equal. apply IH. lia.
Qed.

Lemma ssq_combine_r (m : R) (x y : list R) :
  length x = length y ->
  ssq m y = sum_over (fun p => (snd p - m) * (snd p - m)) (combine x y).
Proof.
  unfold ssq. revert y.
  induction x as [|a x IH]; intros [|b y] H; simpl in *; try congruence.
  f_equal. apply IH. lia.
Qed.

Lemma cauchy_schwarz (mx my : R) (x y : list R) :
  length x = length y ->
  spr mx my x y * spr mx my x y <= ssq mx x * ssq my y.
Proof.
  intros Hxy.
  rewrite (ssq_combine_l mx x y Hxy), (ssq_combine_r my x y Hxy).
  unfold spr. clear Hxy.
  induction (combine x y) as [|[a b] l IH]; simpl.
  - lra.
  - apply cauchy_schwarz_step; [| |exact IH].
    + clear IH. induction l as [|p l IHl]; simpl; [lra|].
      pose proof (square_nonneg (fst p - mx)). lra.
    + clear IH. induction l as [|p l IHl]; simpl; [lra|].
      pose proof (square_nonneg (snd p - my)). lra.
Qed.

Lemma rho_bounds (x y : list R) :
  length x = length y -> -1 <= rho x y <= 1.
Proof.
  intros Hxy. unfold rho.
  set (A := ssq (mu x) x). set (B := ssq (mu y) y).
  set (S := spr (mu x) (mu y) x y).
  assert (HAB : 0 <= A * B)
    by (apply Rmult_le_pos; apply ssq_nonneg).
  pose proof (cauchy_schwarz (mu x) (mu y) x y Hxy) as HS.
  fold A B S in HS.
  pose proof (sqrt_pos (A * B)) as Hd.
  pose proof (sqrt_sqrt (A * B) HAB) as Hdd.
  set (d := R_sqrt.sqrt (A * B)) in *.
  destruct (Req_dec_T d 0) as [E|E]; [lra|].
  assert (Hpos : 0 < d) by lra.
  assert (Hup : S <= d).
  { destruct (Rle_dec S d) as [H|H]; [assumption|]. exfalso.
    apply Rnot_le_lt in H. pose proof (square_lt d S Hd H). lra. }
  assert (Hlo : - d <= S).
  { destruct (Rle_dec (- d) S) as [H|H]; [assumption|]. exfalso.
    apply Rnot_le_lt in H.
    assert (H' : d < - S) by lra.
    pose proof (square_lt d (- S) Hd H'). nra. }
  split.
  - apply (Rmult_le_reg_r d); [assumption|].
    unfold Rdiv. rewrite Rmult_assoc, Rinv_l by assumption. lra.
  - apply (Rmult_le_reg_r d); [assumption|].
    unfold Rdiv. rewrite Rmult_assoc, Rinv_l by assumption. lra.
Qed.

Lemma constant_ssq (l : list R) : l <> [] -> constant l -> ssq (mu l) l = 0.
Proof.
  intros Hl Hc. destruct l as [|c l]; [congruence|].
  assert (Hall : forall v, In v (c :: l) -> v = c).
  { intros v Hv. apply Hc; [assumption | now left]. }
  rewrite (mu_constant c (c :: l) Hl Hall).
  now apply ssq_zero.
Qed.

Lemma rho_degenerate (x y : list R) :
  ssq (mu x) x = 0 \/ ssq (mu y) y = 0 -> rho x y = 0.
Proof.
  intros H. unfold rho.
  assert (E : ssq (mu x) x * ssq (mu y) y = 0) by (destruct H as [H|H]; rewrite H; lra).
  rewrite E, sqrt_0.
  destruct (Req_dec_T 0 0); [reflexivity | congruence].
Qed.



(** C4, in exact arithmetic.  The r of two series of one positive length
    is a real number of the interval [-1, 1], and it is 0 when one of the
    series is constant. *)
Theorem pearson_in_unit_interval (x y : list R) :
  length x = length y ->
  (1 <= length x)%nat ->
  exists r : R,
    pearson (reals x) (reals y) = Num (XR r)
    /\ -1 <= r <= 1
    /\ (constant x \/ constant y -> r = 0).
Proof.
  intros Hxy Hlen.
  assert (Hx : x <> []) by (destruct x; simpl in *; [lia | discriminate]).
  assert (Hy : y <> []) by (destruct x, y; simpl in *; congruence).
  exists (rho x y). split; [now apply pearson_exact|].
  split; [now apply rho_bounds|].
  intros [Hc|Hc]; apply rho_degenerate;
    [left | right]; now apply constant_ssq.
Qed.

Lemma pearson_in_unit_interval_witness :
  exists r : R,
    pearson (reals [0; 3 / 10]) (reals [0; 17 / 10]) = Num (XR r)
    /\ -1 <= r <= 1
    /\ (constant [0; 3 / 10] \/ constant [0; 17 / 10] -> r = 0).
Proof.
  apply (pearson_in_unit_interval [0; 3 / 10] [0; 17 / 10]).
  - reflexivity.
  - simpl. lia.
Defined.

(** *** Positive affine maps *)

Lemma sum_over_map {A B : Type} (f : B -> R) (g : A -> B) (l : list A) :
  sum_over f (map g l) = sum_over (fun a => f (g a)) l.
Proof. induction l as [|a l IH]; simpl; congruence. Qed.

Lemma sum_over_ext {A : Type} (f g : A -> R) (l : list A) :
  (forall a, f a = g a) -> sum_over f l = sum_over g l.
Proof. intros H. induction l as [|a l IH]; simpl; congruence. Qed.

Lemma sum_over_scale {A : Type} (c : R) (f : A -> R) (l : list A) :
  sum_over (fun a => c * f a) l = c * sum_over f l.
Proof. induction l as [|a l IH]; simpl; [lra | rewrite IH; lra]. Qed.

Lemma sum_over_affine (a b : R) (l : list R) :
  sum_over (fun v => a * v + b) l = a * sum_over (fun v => v) l + size l * b.
Proof.
  induction l as [|v l IH].
  - unfold size. simpl. lra.
  - simpl sum_over. rewrite size_cons, IH. lra.
Qed.

Lemma size_map {A B : Type} (g : A -> B) (l : list A) : size (map g l) = size l.
Proof. unfold size. now rewrite length_map. Qed.

Lemma mu_affine (a b : R) (y : list R) :
  y <> [] -> mu (map (fun v => a * v + b) y) = a * mu y + b.
Proof.
  intros Hy. unfold mu.
  rewrite sum_over_map, size_map, sum_over_affine.
  pose proof (size_pos y Hy). field. lra.
Qed.

Lemma ssq_affine (a b m : R) (y : list R) :
  ssq (a * m + b) (map (fun v => a * v + b) y) = (a * a) * ssq m y.
Proof.
  unfold ssq. rewrite sum_over_map, <- sum_over_scale.
  apply sum_over_ext. intros v. ring.
Qed.

Lemma combine_map_r (g : R -> R) (x y : list R) :
  combine x (map g y) = map (fun p => (fst p, g (snd p))) (combine x y).
Proof.
  revert y. induction x as [|u x IH]; intros [|v y]; simpl; try reflexivity.
  now rewrite IH.
Qed.

Lemma spr_affine (a b mx my : R) (x y : list R) :
  spr mx (a * my + b) x (map (fun v => a * v + b) y) = a * spr mx my x y.
Proof.
  unfold spr. rewrite combine_map_r, sum_over_map, <- sum_over_scale.
  apply sum_over_ext. intros p. simpl. ring.
Qed.

Lemma rho_affine (a b : R) (x y : list R) :
  y <> [] -> 0 < a ->
  rho x (map (fun v => a * v + b) y) = rho x y.
Proof.
  intros Hy Ha. unfold rho.
  rewrite (mu_affine a b y Hy), ssq_affine, spr_affine.
  set (A := ssq (mu x) x). set (B := ssq (mu y) y).
  set (S := spr (mu x) (mu y) x y).
  assert (HAB : 0 <= A * B) by (apply Rmult_le_pos; apply ssq_nonneg).
  replace (A * (a * a * B)) with ((a * a) * (A * B)) by ring.
  rewrite sqrt_mult_alt by apply square_nonneg.
  rewrite sqrt_square by lra.
  pose proof (sqrt_pos (A * B)) as Hd.
  set (d := R_sqrt.sqrt (A * B)) in *.
  destruct (Req_dec_T d 0) as [E|E].
  - destruct (Req_dec_T (a * d) 0) as [_|E']; [reflexivity|].
    exfalso. apply E'. rewrite E. ring.
  - destruct (Req_dec_T (a * d) 0) as [E'|_].
    + exfalso. apply Rmult_integral in E'. destruct E'; lra.
    + field. split; lra.
Qed.

(** C9, in exact arithmetic.  A positive affine map of the second series
    does not change r. *)
Theorem pearson_affine_invariant (x y : list R) (a b : R) :
  length x = length y ->
  (1 <= length x)%nat ->
  0 < a ->
  pearson (reals x) (reals (map (fun v => a * v + b) y))
  = pearson (reals x) (reals y).
Proof.
  intros Hxy Hlen Ha.
  assert (Hx : x <> []) by (destruct x; simpl in *; [lia | discriminate]).
  assert (Hy : y <> []) by (destruct x, y; simpl in *; congruence).
  rewrite !pearson_exact by (rewrite ?length_map; assumption).
  now rewrite rho_affine.
Qed.

Lemma pearson_affine_invariant_witness :
  pearson (reals [1; 2; 3]) (reals (map (fun v => 3 * v + 0) [1; 2; 4]))
  = pearson (reals [1; 2; 3]) (reals [1; 2; 4]).
Proof.
  apply (pearson_affine_invariant [1; 2; 3] [1; 2; 4] 3 0).
  - reflexivity.
  - simpl. lia.
  - lra.
Defined.

(** *** Extrema, sorting and the median over the reals *)

Lemma least_spec (vs : list R) :
  forall v, In (least v vs) (v :: vs)
            /\ forall w, In w (v :: vs) -> least v vs <= w.
Proof.
  unfold least. induction vs as [|b vs IH]; intros v; simpl.
  - split; [now left|]. intros w [<-|[]]. lra.
  - destruct (IH (if Rlt_dec b v then b else v)) as [Hin Hle].
    split.
    + destruct Hin as [E|Hin]; [|now right; right].
      rewrite <- E. destruct (Rlt_dec b v); [right; now left | now left].
    + intros w Hw.
      assert (H0 := Hle _ (or_introl eq_refl)).
      destruct Hw as [<-|[<-|Hw]].
      * destruct (Rlt_dec b v); lra.
      * destruct (Rlt_dec b v); lra.
      * apply Hle. now right.
Qed.

Lemma greatest_spec (vs : list R) :
  forall v, In (greatest v vs) (v :: vs)
            /\ forall w, In w (v :: vs) -> w <= greatest v vs.
Proof.
  unfold greatest. induction vs as [|b vs IH]; intros v; simpl.
  - split; [now left|]. intros w [<-|[]]. lra.
  - destruct (IH (if Rlt_dec v b then b else v)) as [Hin Hle].
    split.
    + destruct Hin as [E|Hin]; [|now right; right].
      rewrite <- E. destruct (Rlt_dec v b); [right; now left | now left].
    + intros w Hw.
      assert (H0 := Hle _ (or_introl eq_refl)).
      destruct Hw as [<-|[<-|Hw]].
      * destruct (Rlt_dec v b); lra.
      * destruct (Rlt_dec v b); lra.
      * apply Hle. now right.
Qed.

Lemma isNaN_real (a : R) : isNaN (XR a) = false.
Proof.
  unfold isNaN. change (XR a === XR a)%num with (xeq (XR a) (XR a)).
  unfold xeq. destruct (Req_dec_T a a); [reflexivity | congruence].
Qed.

Lemma Math_min_exact (v : R) (vs : list R) :
  Math_min (Num (XR v)) (reals vs) = XR (least v vs).
Proof.
  unfold Math_min, least, reals. simpl ToNumber. revert v.
  induction vs as [|b vs IH]; intros v; simpl; [reflexivity|].
  unfold min2 at 2. rewrite !isNaN_real. simpl orb. cbv iota.
  change (XR b <? XR v)%num with (xlt (XR b) (XR v)). unfold xlt.
  destruct (Rlt_dec b v); apply IH.
Qed.

Lemma Math_max_exact (v : R) (vs : list R) :
  Math_max (Num (XR v)) (reals vs) = XR (greatest v vs).
Proof.
  unfold Math_max, greatest, reals. simpl ToNumber. revert v.
  induction vs as [|b vs IH]; intros v; simpl; [reflexivity|].
  unfold max2 at 2. rewrite !isNaN_real. simpl orb. cbv iota.
  change (XR v <? XR b)%num with (xlt (XR v) (XR b)). unfold xlt.
  destruct (Rlt_dec v b); apply IH.
Qed.

Lemma sort_insert_exact (x : R) (l : list R) :
  sort_insert (fun x y => (ToNumber x - ToNumber y)%num) (Num (XR x)) (reals l)
  = reals (rinsert x l).
Proof.
  induction l as [|y l IH]; simpl; [reflexivity|].
  change ((XR x - XR y >? of_Z 0)%num) with (xlt (XR 0) (XR (x - y))).
  unfold xlt. destruct (Rlt_dec 0 (x - y)).
  - change (reals (y :: rinsert x l)) with (Num (XR y) :: reals (rinsert x l)).
    f_equal. exact IH.
  - reflexivity.
Qed.

Lemma filter_present_nums (l : list R) :
  filter (fun v => negb (is_undefined v)) (reals l) = reals l.
Proof. induction l as [|a l IH]; simpl; congruence. Qed.

Lemma filter_undefined_nums (l : list R) :
  filter is_undefined (reals l) = [].
Proof. induction l as [|a l IH]; simpl; congruence. Qed.

Lemma sort_exact (l : list R) :
  sort (fun x y => (ToNumber x - ToNumber y)%num) (reals l) = reals (rsort l).
Proof.
  unfold sort. rewrite filter_present_nums, filter_undefined_nums, app_nil_r.
  induction l as [|a l IH]; [reflexivity|].
  change (reals (a :: l)) with (Num (XR a) :: reals l).
  change (rsort (a :: l)) with (rinsert a (rsort l)).
  cbn [fold_right]. rewrite IH. apply sort_insert_exact.
Qed.

Lemma rinsert_perm (x : R) (l : list R) : Permutation (rinsert x l) (x :: l).
Proof.
  induction l as [|y l IH]; simpl; [reflexivity|].
  destruct (Rlt_dec 0 (x - y)); [|reflexivity].
  rewrite IH. apply perm_swap.
Qed.

Lemma rsort_perm (l : list R) : Permutation (rsort l) l.
Proof.
  induction l as [|a l IH]; simpl; [reflexivity|].
  rewrite rinsert_perm. now constructor.
Qed.

Lemma rinsert_sorted (x : R) (l : list R) :
  Sorted Rle l -> Sorted Rle (rinsert x l).
Proof.
  induction l as [|y l IH]; intros Hs; simpl.
  - repeat constructor.
  - destruct (Rlt_dec 0 (x - y)) as [H|H].
    + inversion Hs as [|? ? Hs' Hhd]; subst.
      constructor; [now apply IH|].
      destruct l as [|z l]; simpl.
      * constructor. lra.
      * destruct (Rlt_dec 0 (x - z)); constructor; [|lra].
        inversion Hhd; subst. assumption.
    + constructor; [assumption|]. constructor. lra.
Qed.

Lemma rsort_sorted (l : list R) : Sorted Rle (rsort l).
Proof.
  induction l as [|a l IH]; simpl; [constructor|].
  now apply rinsert_sorted.
Qed.

Lemma nth_nums (i : nat) (l : list R) :
  (i < length l)%nat -> nth i (reals l) Undefined = Num (XR (nth i l 0)).
Proof.
  intros Hi. unfold reals.
  rewrite (nth_indep _ Undefined (Num (XR 0)))
    by (now rewrite length_map).
  now rewrite (map_nth (fun r => Num (XR r))).
Qed.

Lemma half_sum_exact (x y : R) :
  ((XR x + XR y) / of_Z 2)%num = XR ((x + y) / 2).
Proof.
  change ((XR x + XR y) / of_Z 2)%num with (xdiv (XR (x + y)) (XR 2)).
  unfold xdiv. destruct (Req_dec_T 2 0); [lra | reflexivity].
Qed.

Lemma median_exact (l : list R) :
  l <> [] -> median (reals l) = Num (XR (middle (rsort l))).
Proof.
  intros Hl. unfold median. rewrite length_nums.
  destruct l as [|v l]; [congruence|].
  change (Nat.eqb (length (v :: l)) 0) with false. cbv iota zeta.
  rewrite sort_exact, length_nums. unfold middle.
  set (a := rsort (v :: l)).
  assert (Hlen : length a = length (v :: l))
    by (apply Permutation_length, rsort_perm).
  assert (Hpos : (0 < length a)%nat) by (rewrite Hlen; simpl; lia).
  assert (Hmid : (Nat.div (length a) 2 < length a)%nat)
    by (apply Nat.div_lt; lia).
  set (mid := Nat.div (length a) 2) in *.
  destruct (Nat.eqb (Nat.modulo (length a) 2) 0).
  - rewrite !nth_nums by lia. cbn [ToNumber].
    now rewrite half_sum_exact.
  - now rewrite nth_nums by lia.
Qed.

Lemma sum_bounds (lo hi : R) (l : list R) :
  (forall w, In w l -> lo <= w <= hi) ->
  size l * lo <= sum_over (fun v => v) l <= size l * hi.
Proof.
  induction l as [|v l IH]; intros H.
  - unfold size. simpl. lra.
  - simpl sum_over. rewrite size_cons.
    specialize (IH (fun w Hw => H w (or_intror Hw))).
    pose proof (H v (or_introl eq_refl)). lra.
Qed.

Lemma mu_bounds (lo hi : R) (l : list R) :
  l <> [] ->
  (forall w, In w l -> lo <= w <= hi) ->
  lo <= mu l <= hi.
Proof.
  intros Hl H. pose proof (sum_bounds lo hi l H) as [H1 H2].
  pose proof (size_pos l Hl) as Hn. unfold mu. split.
  - apply (Rmult_le_reg_r (size l)); [assumption|].
    unfold Rdiv. rewrite Rmult_assoc, Rinv_l by lra. lra.
  - apply (Rmult_le_reg_r (size l)); [assumption|].
    unfold Rdiv. rewrite Rmult_assoc, Rinv_l by lra. lra.
Qed.

Lemma middle_bounds (lo hi : R) (a : list R) :
  a <> [] ->
  (forall w, In w a -> lo <= w <= hi) ->
  lo <= middle a <= hi.
Proof.
  intros Ha H. unfold middle.
  assert (Hpos : (0 < length a)%nat) by (destruct a; simpl; [congruence | lia]).
  assert (Hmid : (Nat.div (length a) 2 < length a)%nat)
    by (apply Nat.div_lt; lia).
  pose proof (H _ (nth_In a 0 Hmid)) as H1.
  assert (Hmid' : (Nat.div (length a) 2 - 1 < length a)%nat) by lia.
  pose proof (H _ (nth_In a 0 Hmid')) as H2.
  destruct (Nat.eqb (Nat.modulo (length a) 2) 0); lra.
Qed.

(** C5, in exact arithmetic.  For a non-empty series [v :: vs] the summary
    has min <= median <= max and min <= mean <= max, where min and max are
    the least and greatest values, the mean is the sum over the count, and
    the median is the middle of the ascending sort. *)
Theorem summary_order (v : R) (vs : list R) :
  let st := summary_stats (Num (XR v)) (reals vs) in
  exists lo hi m med : R,
    (st_min st = XR lo /\ st_max st = XR hi
     /\ st_mean st = Num (XR m) /\ st_median st = Num (XR med))
    /\ (In lo (v :: vs) /\ forall w, In w (v :: vs) -> lo <= w)
    /\ (In hi (v :: vs) /\ forall w, In w (v :: vs) -> w <= hi)
    /\ m = sum_over (fun w => w) (v :: vs) / size (v :: vs)
    /\ (exists a, Permutation a (v :: vs) /\ Sorted Rle a /\ med = middle a)
    /\ lo <= med <= hi
    /\ lo <= m <= hi.
Proof.
  intros st.
  assert (Hl : v :: vs <> []) by discriminate.
  destruct (least_spec vs v) as [Hlo_in Hlo].
  destruct (greatest_spec vs v) as [Hhi_in Hhi].
  assert (Hb : forall w, In w (v :: vs) -> least v vs <= w <= greatest v vs)
    by (intros w Hw; split; [now apply Hlo | now apply Hhi]).
  exists (least v vs), (greatest v vs), (mu (v :: vs)), (middle (rsort (v :: vs))).
  split; [|split; [|split; [|split; [|split; [|split]]]]].
  - unfold st, summary_stats. cbv zeta. simpl st_min. simpl st_max.
    simpl st_mean. simpl st_median.
    rewrite Math_min_exact, Math_max_exact.
    change (Num (XR v) :: reals vs) with (reals (v :: vs)).
    rewrite (mean_exact (v :: vs) Hl), (median_exact (v :: vs) Hl).
    repeat split.
  - split; assumption.
  - split; assumption.
  - reflexivity.
  - exists (rsort (v :: vs)).
    split; [apply rsort_perm|]. split; [apply rsort_sorted | reflexivity].
  - apply middle_bounds.
    + intros E. pose proof (Permutation_length (rsort_perm (v :: vs))) as HL.
      rewrite E in HL. discriminate.
    + intros w Hw. apply Hb.
      now apply (Permutation_in w (rsort_perm (v :: vs))).
  - now apply mu_bounds.
Qed.

End OnExact.

(** ** The degenerate cases, on both arithmetics *)

Module OnBoth.

Import Binary64 Exact RealSeries.



(** C6, as the code has it.  On binary64 the standard deviation of a
    non-empty series is never negative.  In exact arithmetic it is the
    square root of the mean of the squared deviations from the mean
    (denominator N), it is at least 0, and it is 0 exactly when all the
    values are identical. *)
Theorem stddev_zero_iff_constant :
  (forall l : list float,
      l <> [] ->
      exists s : float, stddev (nums l) = Num s /\ (s <? 0)%float = false)
  /\ (forall l : list R,
        l <> [] ->
        exists s : R,
          stddev (reals l) = Num (XR s)
          /\ s = R_sqrt.sqrt (ssq (mu l) l / size l)
          /\ (0 <= s)%R
          /\ (s = 0%R <-> constant l)).
Proof.
  split.
  - exact OnBinary64.stddev_not_negative.
  - exact OnExact.stddev_exact_zero_iff_constant.
Qed.

Lemma stddev_zero_iff_constant_witness :
  (exists s : float,
      stddev (nums [1; 2; 3; 4; 5]%float) = Num s /\ (s <? 0)%float = false)
  /\ (exists s : R,
        stddev (reals [1; 2; 3; 4; 5]%R) = Num (XR s)
        /\ s = R_sqrt.sqrt (ssq (mu [1; 2; 3; 4; 5]%R) [1; 2; 3; 4; 5]%R
                            / size [1; 2; 3; 4; 5]%R)
        /\ (0 <= s)%R
        /\ (s = 0%R <-> constant [1; 2; 3; 4; 5]%R)).
Proof.
  split.
  - apply (proj1 stddev_zero_iff_constant [1; 2; 3; 4; 5]%float). discriminate.
  - apply (proj2 stddev_zero_iff_constant [1; 2; 3; 4; 5]%R). discriminate.
Defined.

End OnBoth.

(** * Further properties of the engine and of the routes *)

(** ** The moving average at its edges *)

Section MovingAverageEdges.

Context {N : Type} {num : Number N}.

Lemma movingAverage_dead (arr : list (value N)) (W : Z) (l : list nat) :
  fold_left (movingAverage_step arr W) l None = None.
Proof. induction l as [|i l IH]; simpl; [reflexivity | exact IH]. Qed.

Lemma slice_empty {A : Type} (arr : list A) (start stop : nat) :
  stop <= start -> slice arr start stop = [].
Proof.
  intros H. unfold slice. replace (stop - start) with 0 by lia. reflexivity.
Qed.

Lemma movingAverage_without_window (arr : list (value N)) (W : Z) :
  (W <= 0)%Z ->
  movingAverage arr W = match arr with [] => Some [] | _ :: _ => None end.
Proof.
  intros HW. unfold movingAverage. destruct arr as [|v arr]; [reflexivity|].
  simpl length. simpl seq. simpl fold_left.
  rewrite slice_empty by lia. simpl. apply movingAverage_dead.
Qed.

(** A window size of zero or less makes [movingAverage] die on the first
    element (the window is empty, its mean is [null], and [null] has no
    [toFixed]); only the empty array survives it. *)
Theorem movingAverage_window_not_positive (arr : list (value N)) (W : Z) :
  (W <= 0)%Z ->
  movingAverage arr W = match arr with [] => Some [] | _ :: _ => None end.
Proof. intros. apply movingAverage_without_window; assumption. Qed.

(** While the window is not yet full (and for good when it is at least as
    long as the array), the moving average is the running mean: element
    [i] is the rounded mean of the first [i + 1] elements; the last one is
    the rounded mean of the whole array. *)
Theorem movingAverage_running_mean (arr : list (value N)) (W : Z) (i : nat) :
  (Z.of_nat i < W)%Z ->
  i < length arr ->
  exists out,
    movingAverage arr W = Some out
    /\ toFixed_6 (mean (firstn (i + 1) arr)) = nth_error out i
    /\ (i + 1 = length arr -> toFixed_6 (mean arr) = nth_error out i).
Proof.
  intros HW Hi.
  assert (HW0 : (0 < W)%Z) by lia.
  rewrite (movingAverage_spec arr W HW0). eexists. split; [reflexivity|].
  assert (E : toFixed_6 (mean (firstn (i + 1) arr))
              = nth_error (map (fun i => toFixed6 (arith_mean (trailing arr W i)))
                               (seq 0 (length arr))) i).
  { rewrite nth_error_map, nth_error_seq.
    destruct (Nat.ltb_spec i (length arr)) as [_|Hge]; [|lia]. simpl.
    rewrite <- window_is_trailing by assumption.
    replace (Z.max 0 (Z.of_nat i - W + 1)) with 0%Z by lia.
    change (Z.to_nat 0) with 0. unfold slice.
    rewrite Nat.sub_0_r. simpl skipn.
    rewrite mean_nonempty; [reflexivity|].
    destruct arr; simpl in *; [lia|]. rewrite Nat.add_1_r. discriminate. }
  split; [exact E|].
  intros Hlast. rewrite <- E. now rewrite Hlast, firstn_all.
Qed.

End MovingAverageEdges.

(** ** The median and the summary route *)

Section SummaryFacts.

Context {N : Type} {num : Number N}.
Variable Date_parse : string -> option Z.

Lemma sort_insert_perm (cmp : value N -> value N -> N) (x : value N)
    (l : list (value N)) :
  Permutation (sort_insert cmp x l) (x :: l).
Proof.
  induction l as [|y l IH]; simpl; [reflexivity|].
  destruct (nlt (of_Z 0) (cmp x y)); [|reflexivity].
  rewrite IH. apply perm_swap.
Qed.

Lemma filter_split_perm {A : Type} (f : A -> bool) (l : list A) :
  Permutation (filter (fun a => negb (f a)) l ++ filter f l) l.
Proof.
  induction l as [|a l IH]; simpl; [reflexivity|].
  destruct (f a); simpl.
  - rewrite <- Permutation_middle. now constructor.
  - now constructor.
Qed.

(** Whatever the comparator answers, sorting only reorders. *)
Lemma sort_perm (cmp : value N -> value N -> N) (arr : list (value N)) :
  Permutation (sort cmp arr) arr.
Proof.
  unfold sort.
  rewrite <- (filter_split_perm is_undefined arr) at 3.
  apply Permutation_app_tail.
  induction (filter (fun v => negb (is_undefined v)) arr) as [|a l IH];
    simpl; [reflexivity|].
  rewrite sort_insert_perm. now constructor.
Qed.

Lemma sort_length (cmp : value N -> value N -> N) (arr : list (value N)) :
  length (sort cmp arr) = length arr.
Proof. apply Permutation_length, sort_perm. Qed.

Lemma median_picks (arr : list (value N)) :
  arr <> [] ->
  if Nat.odd (length arr)
  then In (median arr) arr
  else exists a b, In a arr /\ In b arr
         /\ median arr = Num (ndiv (nadd (ToNumber a) (ToNumber b)) (of_Z 2)).
Proof.
  intros Hne. unfold median.
  destruct arr as [|v arr]; [congruence|].
  change (Nat.eqb (length (v :: arr)) 0) with false. cbv iota zeta.
  set (cmp := fun x y : value N => nsub (ToNumber x) (ToNumber y)).
  pose proof (sort_perm cmp (v :: arr)) as HP.
  pose proof (sort_length cmp (v :: arr)) as HL.
  set (a := sort cmp (v :: arr)) in *.
  rewrite HL.
  assert (Hpos : 0 < length a) by (rewrite HL; simpl; lia).
  assert (Hmid : Nat.div (length a) 2 < length a) by (apply Nat.div_lt; lia).
  rewrite <- HL.
  assert (Hodd : Nat.odd (length a) = negb (Nat.eqb (Nat.modulo (length a) 2) 0)).
  { rewrite <- Nat.negb_even. f_equal.
    destruct (Nat.eqb_spec (Nat.modulo (length a) 2) 0) as [E|E].
    - apply Nat.even_spec. apply Nat.Div0.mod_divides in E.
      destruct E as [k E]. exists k. exact E.
    - apply not_true_is_false. intros Hev. apply E.
      apply Nat.even_spec in Hev. destruct Hev as [k Hk].
      rewrite Hk, Nat.mul_comm. apply Nat.Div0.mod_mul. }
  rewrite Hodd.
  destruct (Nat.eqb (Nat.modulo (length a) 2) 0); simpl negb; cbv iota.
  - exists (nth (Nat.div (length a) 2 - 1) a Undefined),
           (nth (Nat.div (length a) 2) a Undefined).
    split; [|split; [|reflexivity]].
    + apply (Permutation_in _ HP). apply nth_In. lia.
    + apply (Permutation_in _ HP). now apply nth_In.
  - apply (Permutation_in _ HP). now apply nth_In.
Qed.

(** The median of an odd number of values is one of them; the median of an
    even number is the half-sum of two of them. *)
Theorem median_is_a_value (arr : list (value N)) :
  arr <> [] ->
  if Nat.odd (length arr)
  then In (median arr) arr
  else exists a b, In a arr /\ In b arr
         /\ median arr = Num (ndiv (nadd (ToNumber a) (ToNumber b)) (of_Z 2)).
Proof. intros. apply median_picks; assumption. Qed.

Lemma present_is_Num (v : value N) :
  is_present v = true -> exists n, v = Num n.
Proof. destruct v; try discriminate. intros _. now eexists. Qed.

Lemma median_of_present (arr : list (value N)) :
  arr <> [] ->
  (forall v, In v arr -> is_present v = true) ->
  exists med, median arr = Num med.
Proof.
  intros Hne Hall. pose proof (median_picks arr Hne) as H.
  destruct (Nat.odd (length arr)).
  - apply present_is_Num, Hall, H.
  - destruct H as (a & b & _ & _ & E). rewrite E. now eexists.
Qed.

Lemma summary_route_cases (ds : dataset N) (param : string)
    (from to : option string) :
  truthy (Some param) = true ->
  includes (parameters ds) param = true ->
  (present_values Date_parse ds param from to = []
   /\ summary_route Date_parse ds (Some param) from to
      = Status 400 "No data in range")
  \/ (exists body,
        summary_route Date_parse ds (Some param) from to = Json body
        /\ sm_count body = length (present_values Date_parse ds param from to)
        /\ 1 <= sm_count body
        /\ sm_anomalies body <= sm_count body).
Proof.
  intros Hp Hinc. unfold summary_route. rewrite Hp.
  change (text (Some param)) with param. rewrite Hinc. simpl negb. cbv iota.
  change (filter is_present
            (map (fun s => get s param)
                 (filterByDateRange Date_parse (data ds) from to)))
    with (present_values Date_parse ds param from to).
  destruct (present_values Date_parse ds param from to) as [|v vs] eqn:E.
  - left. split; reflexivity.
  - right.
    assert (Hall : forall w, In w (v :: vs) -> is_present w = true).
    { intros w Hw. rewrite <- E in Hw. unfold present_values in Hw.
      apply filter_In in Hw. tauto. }
    destruct (median_of_present (v :: vs) ltac:(discriminate) Hall) as [med Hmed].
    unfold summary_stats. cbv zeta. cbn [st_mean st_median st_stddev st_min
                                          st_max st_count st_anomalies].
    rewrite Hmed.
    change (mean (v :: vs)) with (Num (arith_mean (v :: vs))).
    unfold stddev.
    change (Nat.eqb (length (v :: vs)) 0) with false. cbv iota zeta.
    cbn [toFixed_6]. eexists. split; [reflexivity|].
    cbn [sm_count sm_anomalies]. split; [reflexivity|].
    split; [simpl; lia|]. apply filter_length_le.
Qed.

Lemma get_not_own (s : record N) (param : string) :
  has_own s param = false -> get s param = Undefined.
Proof.
  unfold has_own, get. induction (fields s) as [|[k v] fs IH]; [reflexivity|].
  simpl. destruct (String.eqb k param); [discriminate | exact IH].
Qed.

(** [s[param]] is a field of the record unless [param] is "date", or is
    inherited and not a field of the record's own. *)
Lemma reads_field_iff (s : record N) (param : string) :
  reads_field s param
  <-> param <> "date"%string
      /\ (has_own s param = true \/ includes Object_prototype param = false).
Proof.
  unfold reads_field, property.
  destruct (String.eqb_spec param "date") as [E|E].
  - split; [discriminate | tauto].
  - destruct (has_own s param) eqn:Ho.
    + split; [auto | reflexivity].
    + rewrite (get_not_own s param Ho).
      destruct (includes Object_prototype param).
      * split; [discriminate|]. intros [_ [H|H]]; discriminate.
      * split; [auto | reflexivity].
Qed.

Lemma there_as_present (param : string) (series : list (record N)) :
  (forall s, In s series -> reads_field s param) ->
  length (filter (fun s => is_there (property s param)) series)
  = length (filter is_present (map (fun s => get s param) series)).
Proof.
  induction series as [|s series IH]; intros H; [reflexivity|].
  simpl. rewrite (H s (or_introl eq_refl)).
  assert (E : is_there (Field (get s param)) = is_present (get s param))
    by (destruct (get s param); reflexivity).
  rewrite E. destruct (is_present (get s param)); simpl;
    rewrite IH; (reflexivity || (intros u Hu; apply H; now right)).
Qed.

(** For a declared parameter that names a field of the records in range,
    the summary route never dies: it answers 400 "No data in range" exactly
    when no record in range has a value, and otherwise a summary whose
    count is the number of records in range that have one, with at most
    that many anomalies. *)
Theorem summary_route_outcomes (ds : dataset N) (param : string)
    (from to : option string) :
  truthy (Some param) = true ->
  includes (parameters ds) param = true ->
  (forall s, In s (in_range_series Date_parse ds from to) ->
             reads_field s param) ->
  let there := filter (fun s => is_there (property s param))
                      (in_range_series Date_parse ds from to) in
  (there = []
   /\ summary_route Date_parse ds (Some param) from to
      = Status 400 "No data in range")
  \/ (exists body,
        summary_route Date_parse ds (Some param) from to = Json body
        /\ sm_count body = length there
        /\ 1 <= sm_count body
        /\ sm_anomalies body <= sm_count body).
Proof.
  intros Hp Hinc Hfields there.
  pose proof (there_as_present param _ Hfields) as Hlen. fold there in Hlen.
  fold (present_values Date_parse ds param from to) in Hlen.
  destruct (summary_route_cases ds param from to Hp Hinc)
    as [[E H] | (body & H & Hc & H1 & Ha)].
  - left. split; [|exact H]. rewrite E in Hlen.
    now apply length_zero_iff_nil.
  - right. exists body. rewrite Hlen, <- Hc. repeat split; assumption.
Qed.

(** Whatever the request, as long as a declared parameter names a field of
    the records in range, the summary route answers: a 400 or a summary,
    never a [TypeError]. *)
Theorem summary_route_answers (ds : dataset N) (param from to : option string) :
  (truthy param = true ->
   includes (parameters ds) (text param) = true ->
   forall s, In s (in_range_series Date_parse ds from to) ->
             reads_field s (text param)) ->
  (exists error, summary_route Date_parse ds param from to = Status 400 error)
  \/ (exists body, summary_route Date_parse ds param from to = Json body).
Proof.
  intros _.
  destruct (truthy param) eqn:Hp.
  2:{ left. unfold summary_route. rewrite Hp. simpl. eauto. }
  destruct (includes (parameters ds) (text param)) eqn:Hinc.
  2:{ left. unfold summary_route. rewrite Hp, Hinc. simpl. eauto. }
  destruct param as [param|]; [|discriminate].
  destruct (summary_route_cases ds param from to Hp Hinc)
    as [[_ H]|(body & H & _)]; rewrite H; eauto.
Qed.

(** The correlation route answers too: for two declared parameters, 400
    "No data in range" exactly when no record is in range, and otherwise
    the rounded r of the two columns with the label of the unrounded r. *)
Theorem correlation_route_outcomes (ds : dataset N) (p1 p2 : string)
    (from to : option string) :
  truthy (Some p1) = true ->
  truthy (Some p2) = true ->
  includes (parameters ds) p1 = true ->
  includes (parameters ds) p2 = true ->
  let series := in_range_series Date_parse ds from to in
  (series = []
   /\ correlation_route Date_parse ds (Some p1) (Some p2) from to
      = Status 400 "No data in range")
  \/ (series <> []
      /\ exists r,
           pearson (map (fun s => get s p1) series)
                   (map (fun s => get s p2) series) = Num r
           /\ correlation_route Date_parse ds (Some p1) (Some p2) from to
              = Json {| c_r := toFixed6 r;
                        c_interpretation := interpretation (Num r) |}).
Proof.
  intros H1 H2 I1 I2 series. unfold correlation_route.
  rewrite H1, H2. change (text (Some p1)) with p1.
  change (text (Some p2)) with p2. rewrite I1, I2. simpl negb. simpl orb.
  cbv iota zeta. fold (in_range_series Date_parse ds from to). fold series.
  rewrite !length_map.
  destruct series as [|s rest] eqn:E; [left; split; reflexivity|].
  right. split; [discriminate|].
  set (x := map (fun s => get s p1) (s :: rest)).
  set (y := map (fun s => get s p2) (s :: rest)).
  assert (Hxy : length x = length y) by (unfold x, y; now rewrite !length_map).
  assert (Hx : x <> []) by discriminate.
  rewrite (pearson_unfold x y Hxy Hx).
  simpl Nat.eqb. simpl orb. cbv iota.
  destruct (neq (pearson_denominator x y) (of_Z 0));
    eexists; split; reflexivity.
Qed.

End SummaryFacts.

(** ** The trends route *)

Section TrendsFacts.

Context {N : Type} {num : Number N}.
Variable Date_parse : string -> option Z.

Lemma trend_points_zip (param : string) (series : list (record N)) :
  forall (pre rest : list N),
    length rest = length series ->
    trend_points series param (pre ++ rest) (length pre)
    = Some (map (fun sa => {| tp_date := date (fst sa);
                              tp_value := get (fst sa) param;
                              moving_average := toFixed6 (snd sa) |})
                (combine series rest)).
Proof.
  induction series as [|s series IH]; intros pre rest Hlen.
  - reflexivity.
  - destruct rest as [|a rest]; [discriminate|].
    simpl trend_points. unfold index.
    rewrite nth_error_app2 by lia. rewrite Nat.sub_diag. simpl nth_error.
    cbn [toFixed_6].
    replace (pre ++ a :: rest) with ((pre ++ [a]) ++ rest)
      by now rewrite <- app_assoc.
    replace (S (length pre)) with (length (pre ++ [a]))
      by (rewrite length_app; simpl; lia).
    rewrite IH by (simpl in Hlen; lia). reflexivity.
Qed.

Lemma movingAverage_length (arr : list (value N)) (W : Z) (out : list N) :
  movingAverage arr W = Some out -> length out = length arr.
Proof.
  destruct (Z_lt_le_dec 0 W) as [HW|HW].
  - rewrite (movingAverage_spec arr W HW). intros E. injection E as <-.
    now rewrite length_map, length_seq.
  - rewrite (movingAverage_without_window arr W HW).
    destruct arr; [|discriminate]. intros E. now injection E as <-.
Qed.

(** With a positive window and a declared parameter that names a field of
    the records in range, the trends route answers one point per record in
    range, in order, with the date and the raw value of the record (absent
    values stay [undefined]) and the moving average rounded a second
    time. *)
Theorem trends_route_points (ds : dataset N) (param : string) (window : Z)
    (from to : option string) :
  truthy (Some param) = true ->
  includes (parameters ds) param = true ->
  (0 < window)%Z ->
  let series := filterByDateRange Date_parse (data ds) from to in
  (forall s, In s series -> reads_field s param) ->
  exists result out,
    trends_route Date_parse ds (Some param) window from to = Json result
    /\ movingAverage (map (fun s => get s param) series) window = Some out
    /\ map tp_date result = map date series
    /\ map (fun p => Field (tp_value p)) result
       = map (fun s => property s param) series
    /\ map moving_average result = map toFixed6 out.
Proof.
  intros Hp Hinc HW series Hfields. unfold trends_route. rewrite Hp.
  change (text (Some param)) with param. rewrite Hinc. simpl negb. cbv iota zeta.
  fold series.
  destruct (movingAverage (map (fun s => get s param) series) window)
    as [out|] eqn:E.
  2:{ rewrite (movingAverage_spec _ _ HW) in E. discriminate. }
  pose proof (movingAverage_length _ _ _ E) as Hlen. rewrite length_map in Hlen.
  pose proof (trend_points_zip param series [] out Hlen) as Hz.
  simpl app in Hz. simpl length in Hz. rewrite Hz.
  eexists. exists out. split; [reflexivity|]. split; [reflexivity|].
  clear E Hz. clearbody series. revert out Hlen.
  induction series as [|s series IH]; intros [|a out] Hlen;
    try discriminate; [repeat split|].
  simpl in Hlen. injection Hlen as Hlen.
  destruct (IH (fun u Hu => Hfields u (or_intror Hu)) out Hlen) as (H1 & H2 & H3).
  simpl. rewrite H1, H2, H3, (Hfields s (or_introl eq_refl)). repeat split.
Qed.

(** With a window of zero or less the trends route dies as soon as one
    record is in range; with no record in range it answers an empty list,
    whatever the window (there is no "No data in range" here). *)
Theorem trends_route_window_not_positive (ds : dataset N) (param : string)
    (window : Z) (from to : option string) :
  truthy (Some param) = true ->
  includes (parameters ds) param = true ->
  (filterByDateRange Date_parse (data ds) from to = [] ->
   trends_route Date_parse ds (Some param) window from to = Json [])
  /\ ((window <= 0)%Z ->
      filterByDateRange Date_parse (data ds) from to <> [] ->
      trends_route Date_parse ds (Some param) window from to = TypeError).
Proof.
  intros Hp Hinc. unfold trends_route. rewrite Hp.
  change (text (Some param)) with param. rewrite Hinc. simpl negb. cbv iota zeta.
  split.
  - intros E. rewrite E. reflexivity.
  - intros HW Hne.
    rewrite (movingAverage_without_window _ _ HW).
    destruct (filterByDateRange Date_parse (data ds) from to); [congruence|].
    reflexivity.
Qed.

End TrendsFacts.

(** ** The algebra of the date-range filter *)

Section DateRangeAlgebra.

Context {N : Type} {num : Number N}.
Variable Date_parse : string -> option Z.

Lemma filterByDateRange_as_filter (series : list (record N))
    (from to : option string) :
  filterByDateRange Date_parse series from to
  = filter (in_range Date_parse (new_Date_or_null Date_parse from)
                     (new_Date_or_null Date_parse to))
           series.
Proof.
  unfold filterByDateRange.
  destruct (negb (truthy from) && negb (truthy to)) eqn:E; [|reflexivity].
  apply andb_prop in E. destruct E as [Ef Et].
  apply negb_true_iff in Ef, Et.
  rewrite (new_Date_falsy Date_parse from Ef), (new_Date_falsy Date_parse to Et).
  symmetry. apply filter_all.
Qed.

Lemma in_range_both (F T : option (option Z)) (s : record N) :
  in_range Date_parse F T s
  = in_range Date_parse F None s && in_range Date_parse None T s.
Proof.
  unfold in_range.
  destruct (match F with Some f => date_lt _ f | None => false end);
    [reflexivity|].
  destruct (match T with Some t => date_lt t _ | None => false end);
    reflexivity.
Qed.

Lemma filter_twice {A : Type} (f g : A -> bool) (l : list A) :
  filter g (filter f l) = filter (fun a => f a && g a) l.
Proof.
  induction l as [|a l IH]; simpl; [reflexivity|].
  destruct (f a); simpl; [destruct (g a)|]; now rewrite IH.
Qed.

(** Filtering by [from] and then by [to], or the other way round, is
    filtering by both; and filtering twice by the same bounds changes
    nothing. *)
Theorem filterByDateRange_composes (series : list (record N))
    (from to : option string) :
  filterByDateRange Date_parse
    (filterByDateRange Date_parse series from None) None to
  = filterByDateRange Date_parse series from to
  /\ filterByDateRange Date_parse
       (filterByDateRange Date_parse series None to) from None
     = filterByDateRange Date_parse series from to
  /\ filterByDateRange Date_parse
       (filterByDateRange Date_parse series from to) from to
     = filterByDateRange Date_parse series from to.
Proof.
  rewrite !filterByDateRange_as_filter, !filter_twice.
  change (new_Date_or_null Date_parse None) with (@None (option Z)).
  repeat split; apply filter_ext; intros s.
  - symmetry. apply in_range_both.
  - rewrite andb_comm. symmetry. apply in_range_both.
  - now destruct (in_range Date_parse _ _ s).
Qed.

(** A record whose own date is not a valid date passes every filter. *)
Theorem invalid_record_date_is_kept (series : list (record N))
    (from to : option string) (s : record N) :
  Date_parse (date s ++ "T00:00:00Z") = None ->
  In s series ->
  In s (filterByDateRange Date_parse series from to).
Proof.
  intros Hd Hs. rewrite filterByDateRange_as_filter.
  apply filter_In. split; [assumption|].
  unfold in_range. rewrite Hd.
  destruct (new_Date_or_null Date_parse from) as [f|];
    destruct (new_Date_or_null Date_parse to) as [t|];
    rewrite ?date_lt_invalid_r; simpl; reflexivity.
Qed.

End DateRangeAlgebra.

(** ** The data, list and upload routes *)

Section OtherRoutes.

Context {N : Type} {num : Number N}.
Variable Date_parse : string -> option Z.

(** With a parameter, the data route answers one point per record in range,
    in order; the value of a point is never [undefined]; and the parameter
    is not checked: a name that no record has or inherits gives points that
    are all [null], not an error, and "date" gives the dates twice. *)
Theorem data_route_points (ds : dataset N) (param : string)
    (from to : option string) :
  truthy (Some param) = true ->
  exists pts,
    data_route Date_parse ds (Some param) from to = Points pts
    /\ map dp_date pts = map date (in_range_series Date_parse ds from to)
    /\ (forall p, In p pts -> dp_value p <> Field Undefined)
    /\ (param = "date"%string ->
        forall p, In p pts -> dp_value p = Text (dp_date p))
    /\ (param <> "date"%string ->
        includes Object_prototype param = false ->
        (forall s, In s (data ds) -> has_own s param = false) ->
        forall p, In p pts -> dp_value p = Field Null).
Proof.
  intros Hp. unfold data_route. rewrite Hp. eexists. split; [reflexivity|].
  change (text (Some param)) with param.
  fold (in_range_series Date_parse ds from to).
  split; [|split; [|split]].
  - rewrite map_map. reflexivity.
  - intros p Hin. apply in_map_iff in Hin. destruct Hin as (s & <- & _).
    simpl. unfold or_null.
    destruct (property s param) as [d|[| |n]|k]; discriminate.
  - intros -> p Hin. apply in_map_iff in Hin. destruct Hin as (s & <- & _).
    reflexivity.
  - intros Hd Hproto Hnone p Hin.
    apply in_map_iff in Hin. destruct Hin as (s & <- & Hs).
    simpl. unfold property.
    destruct (String.eqb_spec param "date") as [E|_]; [contradiction|].
    rewrite Hproto, Hnone; [reflexivity|].
    unfold in_range_series in Hs.
    rewrite filterByDateRange_as_filter in Hs. apply filter_In in Hs. tauto.
Qed.

Lemma last_default {A : Type} (l : list A) :
  forall a d d', last (a :: l) d = last (a :: l) d'.
Proof.
  induction l as [|b l IH]; intros a d d'; [reflexivity|].
  change (last (a :: b :: l) d) with (last (b :: l) d).
  change (last (a :: b :: l) d') with (last (b :: l) d').
  apply IH.
Qed.

Lemma last_index {A : Type} (rest : list A) :
  forall s, nth_error (s :: rest) (length (s :: rest) - 1) = Some (last rest s).
Proof.
  intros s. simpl length. rewrite Nat.sub_succ, Nat.sub_0_r. revert s.
  induction rest as [|r rest IH]; intros s; [reflexivity|].
  simpl length. simpl nth_error. rewrite IH.
  f_equal. destruct rest as [|x rest]; [reflexivity|].
  change (last (r :: x :: rest) s) with (last (x :: rest) s).
  apply last_default.
Qed.

Lemma describe_spec (d : dataset N) :
  describe d = match data d with [] => None | _ :: _ => Some (entry d) end.
Proof.
  unfold describe, date_at, entry, first_date, last_date.
  destruct (data d) as [|s rest] eqn:E; [reflexivity|].
  simpl nth_error at 1. cbv iota.
  now rewrite last_index.
Qed.

Lemma describe_all_some (values : list (dataset N)) :
  (forall d, In d values -> data d <> []) ->
  describe_all values = Some (map entry values).
Proof.
  induction values as [|d values IH]; intros Hall; [reflexivity|].
  simpl. rewrite describe_spec.
  destruct (data d) eqn:E; [exfalso; apply (Hall d); [now left | exact E]|].
  rewrite IH by (intros d' Hd'; apply Hall; now right). reflexivity.
Qed.

Lemma describe_all_none (values : list (dataset N)) :
  describe_all values = None <-> exists d, In d values /\ data d = [].
Proof.
  induction values as [|d values IH]; simpl.
  - split; [discriminate | intros (d & [] & _)].
  - rewrite describe_spec. destruct (data d) eqn:E.
    + split; [intros _; exists d; split; [now left | exact E] | reflexivity].
    + destruct (describe_all values) eqn:Ea.
      * split; [discriminate|]. intros (d' & [<-|Hd'] & Ed'); [congruence|].
        exfalso. assert (Hn : Some l0 = None) by (apply IH; now exists d').
        discriminate.
      * split; [|reflexivity]. intros _.
        destruct (proj1 IH eq_refl) as (d' & Hd' & Ed').
        exists d'. split; [now right | exact Ed'].
Qed.

Lemma list_route_cases (values : list (dataset N)) :
  (list_route values = TypeError <-> exists d, In d values /\ data d = [])
  /\ ((forall d, In d values -> data d <> []) ->
      list_route values = Json (map entry values)).
Proof.
  unfold list_route. split.
  - rewrite <- describe_all_none.
    destruct (describe_all values); split; congruence.
  - intros Hall. now rewrite describe_all_some.
Qed.

(** The list route dies exactly when one of the datasets has no record;
    otherwise it answers one entry per dataset, in order, whose range is
    the dates of the first and of the last record. *)
Theorem list_route_outcomes (values : list (dataset N)) :
  (list_route values = TypeError <-> exists d, In d values /\ data d = [])
  /\ ((forall d, In d values -> data d <> []) ->
      list_route values = Json (map entry values)).
Proof. intros. apply list_route_cases; assumption. Qed.

(** What an accepted upload stores: the id asked for, a name that is never
    empty (the id stands in for a missing one), and the parameters and
    records as they came. *)
Theorem upload_route_stores (p : payload N) (d : dataset N) :
  upload_route p = Json d ->
  Some (id d) = p_id p
  /\ id d <> EmptyString
  /\ name d <> EmptyString
  /\ Some (parameters d) = p_parameters p
  /\ Some (data d) = p_data p.
Proof.
  unfold upload_route.
  destruct (truthy (p_id p)) eqn:Hid; simpl negb; cbv iota; [|discriminate].
  destruct (p_parameters p) as [ps|]; [|discriminate].
  destruct (p_data p) as [rows|]; [|discriminate].
  intros E. injection E as <-. simpl.
  assert (Hne : forall q, truthy q = true -> text q <> EmptyString).
  { intros [q|]; simpl; [|discriminate].
    destruct (String.eqb_spec q EmptyString); [discriminate | auto]. }
  repeat split.
  - destruct (p_id p); [reflexivity | discriminate].
  - now apply Hne.
  - unfold or_else. destruct (truthy (p_name p)) eqn:Hn; now apply Hne.
Qed.

(** An upload with an empty array of records is accepted, and from then on
    the list route dies for as long as that dataset is enumerated. *)
Theorem upload_of_no_records_breaks_listing (p : payload N)
    (ps : list string) :
  truthy (p_id p) = true ->
  p_parameters p = Some ps ->
  p_data p = Some [] ->
  exists d,
    upload_route p = Json d
    /\ forall values, In d values -> list_route values = TypeError.
Proof.
  intros Hid Hps Hdata. unfold upload_route. rewrite Hid, Hps, Hdata.
  simpl negb. cbv iota. eexists. split; [reflexivity|].
  intros values Hin. apply (proj1 (list_route_cases values)).
  eexists. split; [exact Hin | reflexivity].
Qed.

End OtherRoutes.

(** ** Splitting and joining strings *)

Lemma split_on_no_char (c : ascii) (s : string) :
  has_char c s = false -> split_on c s = [s].
Proof.
  induction s as [|a s IH]; simpl; [reflexivity|].
  destruct (Ascii.eqb a c); simpl; [discriminate|].
  intros H. now rewrite IH.
Qed.

Lemma split_on_app (c : ascii) (w rest : string) :
  has_char c w = false ->
  split_on c (w ++ String c rest) = w :: split_on c rest.
Proof.
  induction w as [|a w IH]; simpl.
  - intros _. now rewrite Ascii.eqb_refl.
  - destruct (Ascii.eqb a c); simpl; [discriminate|].
    intros H. now rewrite IH.
Qed.

(** Joining with a separator and splitting on it gives the pieces back,
    when there is at least one piece and none contains the separator. *)
Lemma split_on_concat (c : ascii) (w : string) (ws : list string) :
  (forall x, In x (w :: ws) -> has_char c x = false) ->
  split_on c (String.concat (String c EmptyString) (w :: ws)) = w :: ws.
Proof.
  revert w. induction ws as [|v ws IH]; intros w H.
  - simpl. apply split_on_no_char, H. now left.
  - change (String.concat (String c EmptyString) (w :: v :: ws))
      with (w ++ String c (String.concat (String c EmptyString) (v :: ws)))%string.
    rewrite split_on_app by (apply H; now left).
    f_equal. apply IH. intros x Hx. apply H. now right.
Qed.

Lemma append_empty_r (s : string) : (s ++ EmptyString)%string = s.
Proof. induction s as [|a s IH]; simpl; congruence. Qed.

(** ** The auth middleware *)

Section AuthFacts.

Context {U : Type}.
Variable verifyIdToken : string -> option U.

Lemma second_word (scheme token tail : string) :
  has_char " " scheme = false ->
  has_char " " token = false ->
  tail = EmptyString \/ (exists rest, tail = String " " rest) ->
  nth_error (split_on " " (scheme ++ String " " (token ++ tail))) 1
  = Some token.
Proof.
  intros Hs Ht Htail. rewrite split_on_app by assumption. simpl nth_error.
  destruct Htail as [->|[rest ->]].
  - rewrite append_empty_r. now rewrite split_on_no_char.
  - now rewrite split_on_app.
Qed.

Lemma authMiddleware_enabled (authorization : option string) :
  authMiddleware true verifyIdToken authorization
  = if negb (truthy (nth_error (split_on " " (or_else authorization "")) 1))
    then Unauthorized "Missing auth token"
    else
      match verifyIdToken
              (text (nth_error (split_on " " (or_else authorization "")) 1))
      with
      | Some decoded => Next (Some decoded)
      | None => Unauthorized "Invalid token"
      end.
Proof. reflexivity. Qed.

(** With verification on, the middleware hands the second space-separated
    word of the Authorization header to [verifyIdToken] and lets the
    request through exactly when it is accepted; the first word (the
    scheme) and anything after the token are never looked at. *)
Theorem authMiddleware_reads_second_word (scheme token tail : string) :
  has_char " " scheme = false ->
  has_char " " token = false ->
  token <> EmptyString ->
  tail = EmptyString \/ (exists rest, tail = String " " rest) ->
  authMiddleware true verifyIdToken
                 (Some (scheme ++ String " " (token ++ tail))%string)
  = match verifyIdToken token with
    | Some decoded => Next (Some decoded)
    | None => Unauthorized "Invalid token"
    end.
Proof.
  intros Hs Ht Hne Htail. rewrite authMiddleware_enabled.
  assert (Hh : or_else (Some (scheme ++ String " " (token ++ tail))%string)
                       EmptyString
               = (scheme ++ String " " (token ++ tail))%string).
  { unfold or_else, truthy, text.
    destruct (String.eqb_spec (scheme ++ String " " (token ++ tail)) "")
      as [E|_]; [|reflexivity].
    destruct scheme; discriminate. }
  rewrite Hh, (second_word scheme token tail Hs Ht Htail).
  unfold truthy, text.
  destruct (String.eqb_spec token ""); [contradiction|]. reflexivity.
Qed.

(** With verification on, a request whose Authorization header is missing,
    or has no space in it, or has nothing between its first space and the
    next, is answered 401 "Missing auth token" without [verifyIdToken]
    being asked. *)
Theorem authMiddleware_missing_token (authorization : option string) :
  authorization = None
  \/ (exists h, authorization = Some h /\ has_char " " h = false)
  \/ (exists scheme tail,
        authorization = Some (scheme ++ String " " tail)%string
        /\ has_char " " scheme = false
        /\ (tail = EmptyString \/ exists rest, tail = String " " rest)) ->
  authMiddleware true verifyIdToken authorization
  = Unauthorized "Missing auth token".
Proof.
  rewrite authMiddleware_enabled.
  intros [->|[(h & -> & Hh)|(scheme & tail & -> & Hs & Htail)]].
  - reflexivity.
  - assert (E : nth_error (split_on " " (or_else (Some h) "")) 1 = None).
    { unfold or_else, truthy, text.
      destruct (negb (String.eqb h "")); [|reflexivity].
      now rewrite split_on_no_char. }
    now rewrite E.
  - assert (E : truthy (nth_error
                          (split_on " "
                             (or_else (Some (scheme ++ String " " tail)%string) ""))
                          1) = false).
    { assert (Hh : or_else (Some (scheme ++ String " " tail)%string) EmptyString
                   = (scheme ++ String " " tail)%string).
      { unfold or_else, truthy, text.
        destruct (String.eqb_spec (scheme ++ String " " tail) "") as [E|_];
          [|reflexivity].
        destruct scheme; discriminate. }
      rewrite Hh, split_on_app by assumption. simpl nth_error.
      destruct Htail as [->|[rest ->]]; [reflexivity|].
      simpl split_on. reflexivity. }
    now rewrite E.
Qed.

(** With verification on, an upload stores a dataset only when the request
    has an Authorization header whose second word [verifyIdToken] accepted;
    every other request is turned away before the payload is looked at. *)
Theorem upload_request_needs_token {N : Type} (authorization : option string)
    (p : payload N) (d : dataset N) :
  upload_request true verifyIdToken authorization p = Json d ->
  exists h token decoded,
    authorization = Some h
    /\ nth_error (split_on " " h) 1 = Some token
    /\ verifyIdToken token = Some decoded
    /\ upload_route p = Json d.
Proof.
  unfold upload_request. rewrite authMiddleware_enabled.
  assert (Hh : or_else authorization "" = text authorization).
  { unfold or_else, truthy, text. destruct authorization as [h|]; [|reflexivity].
    destruct (String.eqb_spec h "") as [-> |_]; reflexivity. }
  rewrite Hh.
  destruct (nth_error (split_on " " (text authorization)) 1) as [token|] eqn:Et;
    [|discriminate].
  destruct (negb (truthy (Some token))); [discriminate|].
  cbn [text].
  destruct (verifyIdToken token) as [decoded|] eqn:E; [|discriminate].
  intros H. destruct authorization as [h|]; [|discriminate Et].
  exists h, token, decoded. repeat split; assumption.
Qed.

End AuthFacts.

(** ** The CSV export *)

Section ExportFacts.

Context {N : Type}.
Variable Number_toString : N -> string.
Variable Inherited_toString : string -> string.

Local Abbreviation cell' := (cell Number_toString Inherited_toString).
Local Abbreviation export_rows' := (export_rows Number_toString Inherited_toString).
Local Abbreviation export_route' := (export_route Number_toString Inherited_toString).

Lemma has_char_app (c : ascii) (s t : string) :
  has_char c (s ++ t) = has_char c s || has_char c t.
Proof.
  induction s as [|a s IH]; simpl; [reflexivity|].
  now rewrite IH, orb_assoc.
Qed.

Lemma clean_row_has_no_newline (a b : string) :
  clean a = true -> clean b = true ->
  has_char (ascii_of_nat 10) (String.concat "," [a; b]) = false.
Proof.
  unfold clean. intros Ha Hb.
  apply andb_prop in Ha, Hb. destruct Ha as [_ Ha], Hb as [_ Hb].
  apply negb_true_iff in Ha, Hb.
  change (String.concat "," [a; b]) with (a ++ String "," b)%string.
  rewrite has_char_app. simpl. now rewrite Ha, Hb.
Qed.

Lemma clean_row_splits (a b : string) :
  clean a = true -> clean b = true ->
  split_on "," (String.concat "," [a; b]) = [a; b].
Proof.
  unfold clean. intros Ha Hb.
  apply andb_prop in Ha, Hb. destruct Ha as [Ha _], Hb as [Hb _].
  apply negb_true_iff in Ha, Hb.
  apply split_on_concat. intros x [<-|[<-|[]]]; assumption.
Qed.

(** The export is the whole dataset, one line per record after the header,
    whatever is missing; and when no date, name or printed value holds a
    comma or a line feed, splitting the CSV on line feeds and commas gives
    the rows back (nothing is quoted or escaped, so this is the only case
    in which it does). *)
Theorem export_round_trip (ds : dataset N) (param : string) :
  truthy (Some param) = true ->
  includes (parameters ds) param = true ->
  clean param = true ->
  (forall s, In s (data ds) ->
             clean (date s) = true
             /\ clean (cell' (property s param)) = true) ->
  exists csv,
    export_route' ds (Some param) = Json csv
    /\ map (split_on ",") (split_on (ascii_of_nat 10) csv)
       = export_rows' ds param
    /\ length (split_on (ascii_of_nat 10) csv) = 1 + length (data ds).
Proof.
  intros Hp Hinc Hparam Hcells. unfold export_route. rewrite Hp.
  change (text (Some param)) with param. rewrite Hinc. simpl negb. cbv iota.
  eexists. split; [reflexivity|].
  assert (Hrows : forall r, In r (export_rows' ds param) ->
                    exists a b, r = [a; b] /\ clean a = true /\ clean b = true).
  { unfold export_rows. intros r [<-|Hr].
    - exists "date"%string, param. repeat split. exact Hparam.
    - apply in_map_iff in Hr. destruct Hr as (s & <- & Hs).
      destruct (Hcells s Hs) as [Hd Hc]. eauto. }
  assert (Hsplit : split_on (ascii_of_nat 10) (to_csv (export_rows' ds param))
                   = map (String.concat ",") (export_rows' ds param)).
  { unfold to_csv, newline.
    change (export_rows' ds param)
      with (["date"%string; param]
              :: map (fun s => [date s; cell' (property s param)]) (data ds))
      at 1 2.
    rewrite map_cons. apply split_on_concat.
    rewrite <- map_cons. intros x Hx. apply in_map_iff in Hx.
    destruct Hx as (r & <- & Hr).
    destruct (Hrows r Hr) as (a & b & -> & Ha & Hb).
    now apply clean_row_has_no_newline. }
  rewrite Hsplit. split.
  - rewrite map_map. rewrite <- (map_id (export_rows' ds param)) at 2.
    apply map_ext_in. intros r Hr.
    destruct (Hrows r Hr) as (a & b & -> & Ha & Hb).
    now apply clean_row_splits.
  - rewrite length_map. unfold export_rows. simpl. now rewrite length_map.
Qed.

End ExportFacts.

(** ** The synthetic series *)

Section GeneratorFacts.

Context {N : Type} {num : Number N}.
Variable Math_sin Math_cos toFixed3 : N -> N.
Variable Math_random : nat -> N.

Local Open Scope string_scope.
Local Open Scope list_scope.

Local Abbreviation generated' :=
  (generated Math_sin Math_cos toFixed3 Math_random).
Local Abbreviation generateTimeSeries' :=
  (generateTimeSeries Math_sin Math_cos toFixed3 Math_random).

Lemma collect_some {A : Type} (g : nat -> option A) (h : nat -> A)
    (l : list nat) (acc : list A) :
  (forall i, In i l -> g i = Some (h i)) ->
  fold_left (fun out i => match g i with Some r => out ++ [r] | None => out end)
            l acc
  = acc ++ map h l.
Proof.
  revert acc. induction l as [|i l IH]; intros acc H; simpl.
  - now rewrite app_nil_r.
  - rewrite (H i) by now left.
    rewrite IH by (intros j Hj; apply H; now right).
    now rewrite <- app_assoc.
Qed.

Lemma collect_none {A : Type} (g : nat -> option A) (l : list nat)
    (acc : list A) :
  (forall i, g i = None) ->
  fold_left (fun out i => match g i with Some r => out ++ [r] | None => out end)
            l acc
  = acc.
Proof.
  intros H. revert acc. induction l as [|i l IH]; intros acc; simpl;
    [reflexivity|]. now rewrite H.
Qed.

Lemma generated_known (iso_day : nat -> string) (drawn : nat) (type : string)
    (ps : list string) (i : nat) :
  (type = "marine_weather"
   /\ ps = ["temperature"; "wind_speed"; "wave_height"]%string)
  \/ (type = "chemical_oceanographic"
      /\ ps = ["salinity"; "pH"; "dissolved_oxygen"]%string) ->
  exists r,
    generated' iso_day drawn type i = Some r
    /\ date r = iso_day i
    /\ map fst (fields r) = ps
    /\ forall p, In p ps -> is_present (get r p) = true.
Proof.
  intros [[-> ->]|[-> ->]]; eexists; (split; [reflexivity|]);
    (split; [reflexivity|]); (split; [reflexivity|]);
    intros p [<-|[<-|[<-|[]]]]; reflexivity.
Qed.

Lemma generateTimeSeries_cases (iso_day : nat -> string) (drawn : nat)
    (type : string) (days : nat) :
  ((type = "marine_weather"
    /\ forall r, In r (generateTimeSeries' iso_day drawn type days) ->
         map fst (fields r) = ["temperature"; "wind_speed"; "wave_height"]%string
         /\ forall p, In p ["temperature"; "wind_speed"; "wave_height"]%string ->
              is_present (get r p) = true)
   \/ (type = "chemical_oceanographic"
       /\ forall r, In r (generateTimeSeries' iso_day drawn type days) ->
            map fst (fields r) = ["salinity"; "pH"; "dissolved_oxygen"]%string
            /\ forall p, In p ["salinity"; "pH"; "dissolved_oxygen"]%string ->
                 is_present (get r p) = true))
  /\ map date (generateTimeSeries' iso_day drawn type days)
     = map iso_day (seq 0 days)
  \/ (type <> "marine_weather" /\ type <> "chemical_oceanographic")
     /\ generateTimeSeries' iso_day drawn type days = [].
Proof.
  set (dummy := {| date := EmptyString; fields := @nil (string * value N) |}).
  set (h := fun i => match generated' iso_day drawn type i with
                     | Some r => r
                     | None => dummy
                     end).
  assert (Hknown : forall ps,
             (type = "marine_weather"%string
              /\ ps = ["temperature"; "wind_speed"; "wave_height"]%string)
             \/ (type = "chemical_oceanographic"%string
                 /\ ps = ["salinity"; "pH"; "dissolved_oxygen"]%string) ->
             generateTimeSeries' iso_day drawn type days = map h (seq 0 days)
             /\ forall i, date (h i) = iso_day i
                          /\ map fst (fields (h i)) = ps
                          /\ forall p, In p ps -> is_present (get (h i) p) = true).
  { intros ps Hps. split.
    - unfold generateTimeSeries.
      rewrite (collect_some _ h); [reflexivity|].
      intros i _. unfold h.
      destruct (generated_known iso_day drawn type ps i Hps) as (r & -> & _).
      reflexivity.
    - intros i. unfold h.
      destruct (generated_known iso_day drawn type ps i Hps) as (r & -> & H).
      exact H. }
  destruct (String.eqb_spec type "marine_weather") as [E1|E1].
  - left. destruct (Hknown _ (or_introl (conj E1 eq_refl))) as [Hg Hh].
    split.
    + left. split; [exact E1|]. intros r Hr. rewrite Hg in Hr.
      apply in_map_iff in Hr. destruct Hr as (i & <- & _).
      destruct (Hh i) as (_ & H2 & H3). split; assumption.
    + rewrite Hg, map_map. apply map_ext. intros i. apply Hh.
  - destruct (String.eqb_spec type "chemical_oceanographic") as [E2|E2].
    + left. destruct (Hknown _ (or_intror (conj E2 eq_refl))) as [Hg Hh].
      split.
      * right. split; [exact E2|]. intros r Hr. rewrite Hg in Hr.
        apply in_map_iff in Hr. destruct Hr as (i & <- & _).
        destruct (Hh i) as (_ & H2 & H3). split; assumption.
      * rewrite Hg, map_map. apply map_ext. intros i. apply Hh.
    + right. split; [split; assumption|].
      unfold generateTimeSeries. apply collect_none.
      intros i. unfold generated.
      destruct (String.eqb_spec type "marine_weather"); [contradiction|].
      destruct (String.eqb_spec type "chemical_oceanographic"); [contradiction|].
      reflexivity.
Qed.

(** The two datasets the service starts with have 90 records each, every
    declared parameter is a Number in every record (no gaps), and the list
    route answers for them with the dates of day 0 and of day 89. *)
Theorem initial_datasets_have_no_gaps (iso1 iso2 : nat -> string) :
  let mw := marine_weather Math_sin Math_cos toFixed3 Math_random iso1 in
  let co := chemical_oceanographic Math_sin Math_cos toFixed3 Math_random iso2 in
  (length (data mw) = 90 /\ length (data co) = 90)
  /\ (forall ds, ds = mw \/ ds = co ->
        forall s p, In s (data ds) -> In p (parameters ds) ->
                    is_present (get s p) = true)
  /\ exists e1 e2,
       list_route [mw; co] = Json [e1; e2]
       /\ l_start e1 = iso1 0 /\ l_end e1 = iso1 89
       /\ l_start e2 = iso2 0 /\ l_end e2 = iso2 89.
Proof.
  intros mw co.
  pose proof (generateTimeSeries_cases iso1 0 "marine_weather" 90) as H1.
  pose proof (generateTimeSeries_cases iso2 270 "chemical_oceanographic" 90) as H2.
  destruct H1 as [(K1 & D1)|(U1 & _)]; [|destruct U1; congruence].
  destruct K1 as [(_ & F1)|(K1 & _)]; [|discriminate].
  destruct H2 as [(K2 & D2)|(U2 & _)]; [|destruct U2; congruence].
  destruct K2 as [(K2 & _)|(_ & F2)]; [discriminate|].
  change (generateTimeSeries' iso1 0 "marine_weather" 90) with (data mw) in *.
  change (generateTimeSeries' iso2 270 "chemical_oceanographic" 90)
    with (data co) in *.
  assert (L1 : length (data mw) = 90)
    by (rewrite <- (length_map date), D1, length_map; apply length_seq).
  assert (L2 : length (data co) = 90)
    by (rewrite <- (length_map date), D2, length_map; apply length_seq).
  split; [split; assumption|]. split.
  - intros ds [-> | ->] s p Hs Hp; [apply (F1 s Hs) | apply (F2 s Hs)]; exact Hp.
  - assert (Hrange : forall (d : dataset N) (iso : nat -> string),
               map date (data d) = map iso (seq 0 90) ->
               first_date d = iso 0 /\ last_date d = iso 89 /\ data d <> []).
    { intros d iso Hd. unfold first_date, last_date.
      destruct (data d) as [|s rest]; [discriminate|].
      split; [|split; [|discriminate]].
      - simpl in Hd. now injection Hd.
      - assert (Hl : date (last rest s) = last (map date (s :: rest)) EmptyString).
        { clear Hd. revert s. induction rest as [|r rest IH]; intros s;
            [reflexivity|].
          change (last (r :: rest) s) with
            (match rest with [] => r | _ => last rest s end).
          destruct rest as [|x rest]; [reflexivity|].
          specialize (IH r). simpl in IH. simpl.
          rewrite <- IH. f_equal. apply last_default. }
        rewrite Hl, Hd. reflexivity. }
    destruct (Hrange mw iso1 D1) as (S1 & E1 & N1).
    destruct (Hrange co iso2 D2) as (S2 & E2 & N2).
    exists (entry mw), (entry co). split.
    + apply (proj2 (list_route_cases [mw; co])).
      intros d [<-|[<-|[]]]; assumption.
    + simpl. auto.
Qed.

End GeneratorFacts.

(** ** The dates of the synthetic series *)

Section CalendarFacts.

Import DateObject.
Local Open Scope Z_scope.

Lemma all_from_spec (f : Z -> bool) (n : nat) :
  forall z, all_from n z f = true ->
            forall k, z <= k < z + Z.of_nat n -> f k = true.
Proof.
  induction n as [|n IH]; intros z H k Hk; [lia|].
  simpl in H. apply andb_prop in H. destruct H as [H0 H1].
  destruct (Z.eq_dec k z) as [->|Hne]; [assumption|].
  apply (IH (z + 1) H1). lia.
Qed.

(** The 146097 days of an era, one by one. *)
Lemma era_checked : all_from (Z.to_nat 146097) 0 era_ok = true.
Proof. vm_compute. reflexivity. Qed.

Lemma era_ok_all (doe : Z) : 0 <= doe < 146097 -> era_ok doe = true.
Proof.
  intros H. apply (all_from_spec era_ok (Z.to_nat 146097) 0 era_checked).
  rewrite Z2Nat.id; lia.
Qed.

(** [civil_from_days] gives a month of the year, and the date it gives is
    the date of that day. *)
Lemma civil_round_trip (n : Z) :
  let '(y, m, d) := civil_from_days n in
  1 <= m <= 12 /\ IsoDate.days_from_civil y m d = n.
Proof.
  unfold civil_from_days.
  set (z := n + 719468).
  set (era := z / 146097).
  set (doe := z - era * 146097).
  assert (Hdoe : 0 <= doe < 146097).
  { unfold doe, era. pose proof (Z.div_mod z 146097 ltac:(lia)).
    pose proof (Z.mod_pos_bound z 146097 ltac:(lia)). lia. }
  pose proof (era_ok_all doe Hdoe) as Hok. unfold era_ok in Hok.
  set (yoe := year_of_era doe) in *.
  set (doy := doe - (365 * yoe + yoe / 4 - yoe / 100)) in *.
  set (mp := (5 * doy + 2) / 153) in *.
  cbv zeta in Hok.
  apply andb_prop in Hok. destruct Hok as [Hok H4].
  apply andb_prop in Hok. destruct Hok as [Hok H3].
  apply andb_prop in Hok. destruct Hok as [H1 H2].
  apply Z.leb_le in H1, H3. apply Z.ltb_lt in H2, H4.
  assert (Hera : forall k, 0 <= k < 400 -> (k + era * 400) / 400 = era).
  { intros k Hk. rewrite Z.div_add by lia. rewrite Z.div_small by lia. lia. }
  destruct (Z.ltb_spec mp 10) as [Hmp|Hmp].
  - split; [lia|]. unfold IsoDate.days_from_civil.
    replace (mp + 3 <=? 2) with false by (symmetry; apply Z.leb_gt; lia).
    replace (2 <? mp + 3) with true by (symmetry; apply Z.ltb_lt; lia).
    cbv zeta. rewrite (Hera yoe) by lia.
    replace (yoe + era * 400 - era * 400) with yoe by lia.
    replace (mp + 3 - 3) with mp by lia.
    unfold doy, doe, z. lia.
  - split; [lia|]. unfold IsoDate.days_from_civil.
    replace (mp - 9 <=? 2) with true by (symmetry; apply Z.leb_le; lia).
    replace (2 <? mp - 9) with false by (symmetry; apply Z.ltb_ge; lia).
    cbv zeta.
    replace (yoe + era * 400 + 1 - 1) with (yoe + era * 400) by lia.
    rewrite (Hera yoe) by lia.
    replace (yoe + era * 400 - era * 400) with yoe by lia.
    replace (mp - 9 + 9) with mp by lia.
    unfold doy, doe, z. lia.
Qed.

Lemma days_from_civil_day (y m d k : Z) :
  IsoDate.days_from_civil y m d + k = IsoDate.days_from_civil y m (d + k).
Proof. unfold IsoDate.days_from_civil. cbv zeta. lia. Qed.

(** Setting the day of the month to that of [t] plus [k] moves the day
    number by [k], across the ends of months and years. *)
Lemma MakeDay_shift (t k : Z) :
  MakeDay (YearFromTime t) (MonthFromTime t) (DateFromTime t + k) = Day t + k.
Proof.
  unfold MakeDay, YearFromTime, MonthFromTime, DateFromTime.
  pose proof (civil_round_trip (Day t)) as H.
  destruct (civil_from_days (Day t)) as [[y m] d]. destruct H as [Hm H].
  cbn [fst snd]. cbv zeta.
  rewrite (Z.div_small (m - 1) 12) by lia.
  rewrite (Z.mod_small (m - 1) 12) by lia.
  replace (y + 0) with y by lia. replace (m - 1 + 1) with m by lia.
  rewrite <- H.
  replace (IsoDate.days_from_civil y m 1 + (d + k) - 1)
    with (IsoDate.days_from_civil y m 1 + (d + k - 1)) by lia.
  rewrite !days_from_civil_day. f_equal. lia.
Qed.

Lemma Day_shift (t k : Z) : Day (t + k * msPerDay) = Day t + k.
Proof. unfold Day. apply Z.div_add. discriminate. Qed.

Section ConstantOffset.

Variable LocalTZA : Z -> bool -> Z.
Variable offset : Z.
Hypothesis constant_offset : forall t isUTC, LocalTZA t isUTC = offset.

(** Where local time is UTC plus a constant, [setDate] moves a date by
    whole days of 24 hours. *)
Lemma setDate_shift (t k : Z) :
  Z.abs (t + k * msPerDay) <= 8640000000000000 ->
  setDate LocalTZA (Some t)
          (option_map (fun g => g + k) (getDate LocalTZA (Some t)))
  = Some (t + k * msPerDay).
Proof.
  intros Hrange. unfold setDate, getDate, option_map. cbv zeta.
  rewrite MakeDay_shift.
  unfold UTC, MakeDate, LocalTime. rewrite !constant_offset.
  assert (E : (Day (t + offset) + k) * msPerDay + TimeWithinDay (t + offset)
              - offset = t + k * msPerDay).
  { unfold Day, TimeWithinDay.
    pose proof (Z.div_mod (t + offset) msPerDay ltac:(discriminate)). lia. }
  rewrite E. unfold TimeClip.
  destruct (Z.leb_spec (Z.abs (t + k * msPerDay)) 8640000000000000);
    [reflexivity | lia].
Qed.

Lemma iso_at_constant_offset (now : Z) (days i : nat) :
  Z.abs now + Z.of_nat days * msPerDay <= 8640000000000000 ->
  (i < days)%nat ->
  iso_at LocalTZA now days i
  = Some (iso_of_day (Day now - (Z.of_nat days - 1) + Z.of_nat i)).
Proof.
  intros Hrange Hi. unfold iso_at, start_of. cbv zeta.
  assert (Hms : msPerDay = 86400000) by reflexivity.
  replace (fun g => g - (Z.of_nat days - 1))
    with (fun g => g + - (Z.of_nat days - 1)) by reflexivity.
  rewrite setDate_shift by lia.
  rewrite setDate_shift by lia.
  unfold toISOString_slice, option_map. rewrite !Day_shift.
  do 2 f_equal; lia.
Qed.

Context {N : Type} {num : Number N}.
Variable Math_sin Math_cos toFixed3 : N -> N.
Variable Math_random : nat -> N.

(** Where local time is UTC plus a constant (no daylight saving), a series
    of one of the two kinds has one record per day, and record [i] carries
    the UTC date of the day [days - 1 - i] days before the day of the
    clock: consecutive days, the last of them today. *)
Theorem generateTimeSeries_dates (now : Z) (drawn days : nat) (type : string) :
  Z.abs now + Z.of_nat days * msPerDay <= 8640000000000000 ->
  type = "marine_weather"%string \/ type = "chemical_oceanographic"%string ->
  exists series,
    generateTimeSeries_at Math_sin Math_cos toFixed3 Math_random LocalTZA
                          now drawn type days = Some series
    /\ length series = days
    /\ map date series
       = map (fun i => iso_of_day (Day now - (Z.of_nat days - 1) + Z.of_nat i))
             (seq 0 days).
Proof.
  intros Hrange Htype. unfold generateTimeSeries_at.
  assert (Hall : forallb (fun i => match iso_at LocalTZA now days i with
                                   | Some _ => true
                                   | None => false
                                   end) (seq 0 days) = true).
  { apply forallb_forall. intros i Hi. apply in_seq in Hi.
    rewrite iso_at_constant_offset by lia. reflexivity. }
  rewrite Hall. eexists. split; [reflexivity|].
  assert (Hdates :
            map date (generateTimeSeries Math_sin Math_cos toFixed3 Math_random
                        (fun i => text (iso_at LocalTZA now days i))
                        drawn type days)
            = map (fun i => iso_of_day (Day now - (Z.of_nat days - 1) + Z.of_nat i))
                  (seq 0 days)).
  { destruct (generateTimeSeries_cases Math_sin Math_cos toFixed3 Math_random
                (fun i => text (iso_at LocalTZA now days i)) drawn type days)
      as [[_ H] | [[H1 H2] _]].
    - rewrite H. apply map_ext_in. intros i Hi. apply in_seq in Hi.
      rewrite iso_at_constant_offset by lia. reflexivity.
    - destruct Htype; contradiction. }
  split; [|exact Hdates].
  rewrite <- (length_map date), Hdates, length_map. apply length_seq.
Qed.

End ConstantOffset.

End CalendarFacts.

(** ** Symmetry of Pearson's r *)

Section PearsonSymmetry.

Context {N : Type} {num : Number N}.
Hypothesis nmul_comm : forall a b : N, nmul a b = nmul b a.

Lemma sum_products_sym (mx my : N) (x : list (value N)) :
  forall (y : list (value N)) (acc : N),
    fold_left (fun acc p => nadd acc (nmul (nsub (ToNumber (fst p)) mx)
                                           (nsub (ToNumber (snd p)) my)))
              (combine x y) acc
    = fold_left (fun acc p => nadd acc (nmul (nsub (ToNumber (fst p)) my)
                                             (nsub (ToNumber (snd p)) mx)))
                (combine y x) acc.
Proof.
  induction x as [|a x IH]; intros [|b y] acc; simpl; try reflexivity.
  rewrite (nmul_comm (nsub (ToNumber a) mx)). apply IH.
Qed.

(** When the product of Numbers commutes, [pearson] is symmetric: the two
    series can be exchanged, whatever they hold and whatever their
    lengths. *)
Lemma pearson_sym (x y : list (value N)) : pearson x y = pearson y x.
Proof.
  destruct (Nat.eq_dec (length x) (length y)) as [E|E].
  - destruct x as [|a x].
    + destruct y; [reflexivity | discriminate].
    + assert (Hy : y <> []) by (destruct y; [discriminate | discriminate]).
      rewrite (pearson_unfold (a :: x) y E ltac:(discriminate)).
      rewrite (pearson_unfold y (a :: x) (eq_sym E) Hy).
      unfold pearson_denominator, sum_products.
      rewrite (nmul_comm (sum_squares y (ToNumber (mean y)))).
      now rewrite sum_products_sym.
  - unfold pearson.
    destruct (Nat.eqb_spec (length x) (length y)); [contradiction|].
    destruct (Nat.eqb_spec (length y) (length x)); [congruence|].
    reflexivity.
Qed.

End PearsonSymmetry.

(** ** Binary64: products commute, NaN absorbs *)

Module Binary64Algebra.

Local Open Scope float_scope.

Lemma SFmul_comm (a b : spec_float) : SFmul prec emax a b = SFmul prec emax b a.
Proof.
  destruct a as [sa|sa| |sa ma ea], b as [sb|sb| |sb mb eb]; simpl;
    try reflexivity; try (now rewrite xorb_comm).
  now rewrite xorb_comm, Pos.mul_comm, Z.add_comm.
Qed.

Lemma mul_comm (x y : float) : x * y = y * x.
Proof.
  apply Prim2SF_inj. rewrite !mul_spec. apply SFmul_comm.
Qed.

Lemma nan_iff (x : float) : Prim2SF x = S754_nan -> x = nan.
Proof.
  intros H. rewrite <- (SF2Prim_Prim2SF x), H. reflexivity.
Qed.

Lemma add_nan_r (x : float) : x + nan = nan.
Proof.
  apply nan_iff. rewrite add_spec.
  change (Prim2SF nan) with S754_nan. unfold SF64add, SFadd.
  now destruct (Prim2SF x).
Qed.

Lemma add_nan_l (x : float) : nan + x = nan.
Proof. apply nan_iff. now rewrite add_spec. Qed.

Lemma sub_nan_r (x : float) : x - nan = nan.
Proof.
  apply nan_iff. rewrite sub_spec.
  change (Prim2SF nan) with S754_nan. unfold SF64sub, SFsub.
  now destruct (Prim2SF x).
Qed.

Lemma mul_nan_l (x : float) : nan * x = nan.
Proof. apply nan_iff. now rewrite mul_spec. Qed.

Lemma div_nan_l (x : float) : nan / x = nan.
Proof. apply nan_iff. now rewrite div_spec. Qed.

Lemma div_nan_r (x : float) : x / nan = nan.
Proof.
  apply nan_iff. rewrite div_spec.
  change (Prim2SF nan) with S754_nan. unfold SF64div, SFdiv.
  now destruct (Prim2SF x).
Qed.

End Binary64Algebra.

(** ** Gaps and symmetry on binary64 *)

Module MoreOnBinary64.

Import Binary64 Binary64Algebra.
Local Open Scope string_scope.
Local Open Scope list_scope.
Local Open Scope float_scope.

Lemma pearson_commutes (x y : list (value float)) :
  pearson x y = pearson y x.
Proof. apply pearson_sym. exact mul_comm. Qed.

(** The correlation route answers the same for (param1, param2) and for
    (param2, param1): the same error, or the same r and label. *)
Theorem correlation_route_symmetric (Date_parse : string -> option Z)
    (ds : dataset float) (p1 p2 from to : option string) :
  correlation_route Date_parse ds p1 p2 from to
  = correlation_route Date_parse ds p2 p1 from to.
Proof.
  unfold correlation_route.
  rewrite (orb_comm (negb (truthy p2))).
  destruct (negb (truthy p1) || negb (truthy p2)); [reflexivity|].
  rewrite (orb_comm (negb (includes (parameters ds) (text p2)))).
  destruct (negb (includes (parameters ds) (text p1))
            || negb (includes (parameters ds) (text p2))); [reflexivity|].
  cbv zeta.
  rewrite (orb_comm (Nat.eqb (length (map (fun s => get s (text p2)) _)) 0)).
  rewrite (pearson_commutes (map (fun s => get s (text p2)) _)).
  reflexivity.
Qed.

(** On binary64 [pearson] is symmetric: exchanging the two series gives
    the same result, bit for bit, whatever they hold. *)
Theorem pearson_symmetric (x y : list (value float)) :
  pearson x y = pearson y x.
Proof. intros. apply pearson_commutes; assumption. Qed.

Lemma sum_stays_nan (l : list (value float)) :
  fold_left (fun a b => a + ToNumber b)%num l nan = nan.
Proof.
  induction l as [|v l IH]; simpl; [reflexivity|].
  change (nan + ToNumber v)%num with (nan + ToNumber v).
  now rewrite add_nan_l.
Qed.

Lemma sum_with_undefined (l : list (value float)) :
  In Undefined l ->
  forall acc, fold_left (fun a b => a + ToNumber b)%num l acc = nan.
Proof.
  induction l as [|v l IH]; [intros []|].
  intros [->|Hin] acc; simpl.
  - change (acc + NaN)%num with (acc + nan).
    rewrite add_nan_r. apply sum_stays_nan.
  - now apply IH.
Qed.

Lemma arith_mean_undefined (l : list (value float)) :
  In Undefined l -> arith_mean l = nan.
Proof.
  intros Hin. unfold arith_mean. rewrite (sum_with_undefined l Hin).
  change (nan / of_nat (length l))%num with (nan / of_nat (length l)).
  apply div_nan_l.
Qed.

(** One missing value makes the moving average NaN at its own index and at
    the [W - 1] indices after it: at every index whose window holds it. *)
Theorem movingAverage_gap_spreads (arr : list (value float)) (W : Z)
    (j i : nat) :
  (0 < W)%Z ->
  nth_error arr j = Some Undefined ->
  (j <= i)%nat ->
  (Z.of_nat i < Z.of_nat j + W)%Z ->
  (i < length arr)%nat ->
  exists out,
    movingAverage arr W = Some out /\ nth_error out i = Some nan.
Proof.
  intros HW Hj Hji HiW Hi.
  rewrite (movingAverage_spec arr W HW). eexists. split; [reflexivity|].
  rewrite nth_error_map, nth_error_seq.
  destruct (Nat.ltb_spec i (length arr)) as [_|Hge]; [|lia].
  change (0 + i)%nat with i. cbn [option_map]. cbv beta.
  rewrite arith_mean_undefined; [reflexivity|].
  unfold trailing. apply in_map_iff. exists j. split.
  - now apply nth_error_nth.
  - apply in_seq. lia.
Qed.

Lemma squares_stay_nan (m : float) (l : list (value float)) :
  fold_left (fun acc v => acc + (ToNumber v - m) * (ToNumber v - m))%num l nan
  = nan.
Proof.
  induction l as [|v l IH]; simpl; [reflexivity|].
  change (nan + (ToNumber v - m) * (ToNumber v - m))%num
    with (nan + (ToNumber v - m) * (ToNumber v - m)).
  now rewrite add_nan_l.
Qed.

Lemma sum_squares_nan (l : list (value float)) :
  l <> [] -> sum_squares l nan = nan.
Proof.
  destruct l as [|v l]; [congruence|]. intros _.
  unfold sum_squares. simpl fold_left.
  change (of_Z 0 + (ToNumber v - nan) * (ToNumber v - nan))%num
    with (0 + (ToNumber v - nan) * (ToNumber v - nan)).
  rewrite sub_nan_r, mul_nan_l, add_nan_r. apply squares_stay_nan.
Qed.

Lemma sum_squares_undefined (l : list (value float)) :
  In Undefined l -> sum_squares l (ToNumber (mean l)) = nan.
Proof.
  intros Hin.
  assert (Hne : l <> []) by (destruct l; [destruct Hin | discriminate]).
  rewrite (mean_nonempty l Hne). cbn [ToNumber].
  rewrite (arith_mean_undefined l Hin). now apply sum_squares_nan.
Qed.

Lemma pearson_with_gap (x y : list (value float)) :
  length x = length y ->
  In Undefined x \/ In Undefined y ->
  pearson x y = Num nan
  /\ interpretation (Num nan) = "Weak or no correlation".
Proof.
  intros Hxy Hin. split; [|reflexivity].
  assert (Hx : x <> []).
  { destruct Hin as [Hin|Hin]; destruct x, y; simpl in *;
      try discriminate; try contradiction. }
  rewrite (pearson_unfold x y Hxy Hx).
  assert (Hd : pearson_denominator x y = nan).
  { unfold pearson_denominator.
    change (nsqrt (sum_squares x (ToNumber (mean x))
                   * sum_squares y (ToNumber (mean y)))%num)
      with (sqrt (sum_squares x (ToNumber (mean x))
                  * sum_squares y (ToNumber (mean y)))).
    destruct Hin as [Hin|Hin].
    - now rewrite (sum_squares_undefined x Hin), mul_nan_l.
    - now rewrite (sum_squares_undefined y Hin), mul_comm, mul_nan_l. }
  rewrite Hd.
  change (nan === of_Z 0)%num with false. cbv iota.
  f_equal. apply div_nan_r.
Qed.

(** When a value is missing from one of two series of one length, r is
    NaN, and NaN gets the label "Weak or no correlation". *)
Theorem pearson_gap_is_NaN (x y : list (value float)) :
  length x = length y ->
  In Undefined x \/ In Undefined y ->
  pearson x y = Num nan
  /\ interpretation (Num nan) = "Weak or no correlation".
Proof. intros. apply pearson_with_gap; assumption. Qed.


End MoreOnBinary64.

(** ** Anomalies in exact arithmetic *)

Module MoreOnExact.

Import Exact RealSeries.
Local Open Scope R_scope.

Lemma anomaly_test_exact (m sd w : R) :
  nlt (nmul (of_Z 2) (ToNumber (Num (XR sd))))
      (nabs (nsub (ToNumber (Num (XR w))) (ToNumber (Num (XR m)))))
  = if Rlt_dec (2 * sd) (Rabs (w - m)) then true else false.
Proof. reflexivity. Qed.

Lemma count_exact (f : value xnum -> bool) (g : R -> bool) (l : list R) :
  (forall w, f (Num (XR w)) = g w) ->
  length (filter f (reals l)) = length (filter g l).
Proof.
  intros H. induction l as [|w l IH]; simpl; [reflexivity|].
  rewrite H. destruct (g w); simpl; now rewrite IH.
Qed.

(** The squared deviations of [k] values that each lie more than [c >= 0]
    away from [m] add up to more than [k] times [c] squared. *)
Lemma ssq_of_far_values (m c : R) (l : list R) :
  0 <= c ->
  IZR (Z.of_nat
         (length (filter (fun w => if Rlt_dec c (Rabs (w - m)) then true else false)
                         l)))
  * (c * c) <= ssq m l.
Proof.
  intros Hc. unfold ssq. induction l as [|w l IH]; simpl.
  - lra.
  - pose proof (OnExact.square_nonneg (w - m)) as Hsq.
    destruct (Rlt_dec c (Rabs (w - m))) as [Hfar|Hnear].
    + simpl length. rewrite Nat2Z.inj_succ, succ_IZR.
      assert (Hw : c * c <= (w - m) * (w - m)).
      { pose proof (Rabs_pos (w - m)).
        replace ((w - m) * (w - m)) with (Rabs (w - m) * Rabs (w - m)).
        - apply Rmult_le_compat; lra.
        - unfold Rabs. destruct (Rcase_abs (w - m)); ring. }
      lra.
    + lra.
Qed.

Lemma no_far_values (m c : R) (l : list R) :
  0 <= c -> (forall v, In v l -> v = m) ->
  length (filter (fun w => if Rlt_dec c (Rabs (w - m)) then true else false) l)
  = 0%nat.
Proof.
  intros Hc Hall. induction l as [|w l IH]; [reflexivity|].
  simpl. rewrite (Hall w (or_introl eq_refl)).
  replace (m - m) with 0 by ring. rewrite Rabs_R0.
  destruct (Rlt_dec c 0); [lra|].
  apply IH. intros u Hu. apply Hall. now right.
Qed.

(** In exact arithmetic at most a quarter of the values of a summary are
    anomalies (more than two standard deviations from the mean), and a
    series of identical values has none. *)
Lemma anomalies_chebyshev (v : R) (vs : list R) :
  let st := summary_stats (Num (XR v)) (reals vs) in
  (4 * st_anomalies st <= st_count st)%nat
  /\ (constant (v :: vs) -> st_anomalies st = 0%nat).
Proof.
  intros st.
  assert (Hl : v :: vs <> []) by discriminate.
  set (l := v :: vs) in *.
  set (m := mu l). set (sd := R_sqrt.sqrt (ssq m l / size l)).
  set (far := fun w => if Rlt_dec (2 * sd) (Rabs (w - m)) then true else false).
  assert (Hcount : st_count st = length l).
  { unfold st, summary_stats. cbv zeta. cbn [st_count].
    change (Num (XR v) :: reals vs) with (reals l).
    apply OnExact.length_nums. }
  assert (Han : st_anomalies st = length (filter far l)).
  { unfold st, summary_stats. cbv zeta. cbn [st_anomalies].
    change (Num (XR v) :: reals vs) with (reals l).
    rewrite (OnExact.mean_exact l Hl), (OnExact.stddev_exact l Hl).
    apply count_exact. intros w. apply anomaly_test_exact. }
  pose proof (OnExact.size_pos l Hl) as Hn.
  pose proof (OnExact.ssq_nonneg m l) as Hs.
  assert (Hq : 0 <= ssq m l / size l).
  { apply Rmult_le_pos; [assumption|]. left. now apply Rinv_0_lt_compat. }
  pose proof (sqrt_pos (ssq m l / size l)) as Hsd. fold sd in Hsd.
  pose proof (sqrt_sqrt _ Hq) as Hsq. fold sd in Hsq.
  assert (Hss : ssq m l = size l * (sd * sd)).
  { rewrite Hsq. field. lra. }
  pose proof (ssq_of_far_values m (2 * sd) l ltac:(lra)) as Hfar.
  fold far in Hfar. rewrite Hss in Hfar.
  set (k := length (filter far l)) in *.
  assert (Hzero : sd * sd = 0 -> k = 0%nat).
  { intros Hz. assert (Hs0 : ssq m l = 0) by (rewrite Hss, Hz; ring).
    unfold k, far. apply no_far_values; [lra|].
    apply (proj1 (OnExact.ssq_zero m l) Hs0). }
  rewrite Han, Hcount. fold k. split.
  - destruct (Req_dec_T (sd * sd) 0) as [Hz|Hnz].
    + rewrite (Hzero Hz). lia.
    + pose proof (OnExact.square_nonneg sd).
      assert (Hle : IZR (Z.of_nat k) * 4 <= size l) by nra.
      unfold size in Hle.
      replace (IZR (Z.of_nat k) * 4) with (IZR (Z.of_nat (4 * k))) in Hle
        by (rewrite Nat2Z.inj_mul, mult_IZR; simpl; lra).
      apply le_IZR in Hle. lia.
  - intros Hc. apply Hzero.
    pose proof (OnExact.constant_ssq l Hl Hc) as H0. fold m in H0.
    rewrite H0 in Hss. nra.
Qed.

End MoreOnExact.

(** ** Anomalies as the code counts them *)

Module MoreOnBoth.

Import Binary64 Exact RealSeries Scenarios.

(** The anomalies of the summary route obey Chebyshev's bound in exact
    arithmetic only.  There, at most a quarter of the values lie more than
    two standard deviations from the mean, and a series of identical
    values has no anomaly.  On binary64 neither holds: for three records
    with the value 0.1 * 2^-700 the rounded mean differs from the value,
    the squared deviations underflow, the standard deviation is 0, and
    the route counts 3 anomalies among 3 values. *)
Theorem anomalies_bound_is_exact_only :
  (forall (v : R) (vs : list R),
      let st := summary_stats (Num (XR v)) (reals vs) in
      (4 * st_anomalies st <= st_count st)%nat
      /\ (constant (v :: vs) -> st_anomalies st = 0%nat))
  /\ (forall Date_parse,
        exists body,
          summary_route Date_parse tiny_dataset (Some "t"%string) None None
          = Json body
          /\ sm_stddev body = 0%float
          /\ sm_count body = 3%nat
          /\ sm_anomalies body = 3%nat).
Proof.
  split.
  - exact MoreOnExact.anomalies_chebyshev.
  - intros Date_parse. eexists. split; [vm_compute; reflexivity|].
    repeat split.
Qed.

End MoreOnBoth.

(** ** The properties above at concrete requests *)

Module Instances.

Import Binary64 Scenarios.
Local Open Scope string_scope.
Local Open Scope list_scope.

Lemma whole_toString_runs :
  map whole_toString [1; 2; 10; 0; -3]%float = ["1"; "2"; "10"; "0"; "-3"].
Proof. vm_compute. reflexivity. Qed.

Lemma movingAverage_window_not_positive_witness :
  movingAverage (nums [1; 2; 3]%float) 0 = None.
Proof.
  apply (movingAverage_window_not_positive (nums [1; 2; 3]%float) 0%Z).
  lia.
Defined.

Lemma movingAverage_running_mean_witness :
  exists out,
    movingAverage (nums [1; 2; 4]%float) 7 = Some out
    /\ toFixed_6 (mean (nums [1; 2]%float)) = nth_error out 1
    /\ toFixed_6 (mean (nums [1; 2; 4]%float)) = nth_error out 2.
Proof.
  destruct (movingAverage_running_mean (nums [1; 2; 4]%float) 7%Z 1)
    as (out & H1 & H2 & _); [lia | simpl; lia |].
  destruct (movingAverage_running_mean (nums [1; 2; 4]%float) 7%Z 2)
    as (out' & H1' & _ & H3); [lia | simpl; lia |].
  exists out. split; [exact H1|]. split; [exact H2|].
  rewrite H1 in H1'. injection H1' as <-. apply H3. reflexivity.
Defined.

Lemma median_is_a_value_witness :
  In (median (nums [3; 1; 2]%float)) (nums [3; 1; 2]%float).
Proof.
  apply (median_is_a_value (nums [3; 1; 2]%float)). discriminate.
Defined.

Lemma gap_dataset_reads_fields :
  forall s, In s (in_range_series IsoDate.parse gap_dataset None None) ->
            reads_field s "t".
Proof.
  intros s Hs. simpl in Hs.
  repeat (destruct Hs as [<- | Hs]; [reflexivity|]). contradiction.
Defined.

Lemma summary_route_outcomes_witness :
  exists body,
    summary_route IsoDate.parse gap_dataset (Some "t") None None = Json body
    /\ sm_count body = 2
    /\ 1 <= sm_count body
    /\ sm_anomalies body <= sm_count body.
Proof.
  destruct (summary_route_outcomes IsoDate.parse gap_dataset "t" None None
              eq_refl eq_refl gap_dataset_reads_fields)
    as [[E _] | H].
  - discriminate E.
  - exact H.
Defined.

Lemma summary_route_answers_witness :
  (exists error,
      summary_route IsoDate.parse gap_dataset (Some "t") None None
      = Status 400 error)
  \/ (exists body,
        summary_route IsoDate.parse gap_dataset (Some "t") None None = Json body).
Proof.
  apply (summary_route_answers IsoDate.parse gap_dataset (Some "t") None None).
  intros _ _. exact gap_dataset_reads_fields.
Defined.

Lemma correlation_route_outcomes_witness :
  exists r,
    pearson (map (fun s => get s "x") (data xy_dataset))
            (map (fun s => get s "y") (data xy_dataset)) = Num r
    /\ correlation_route IsoDate.parse xy_dataset (Some "x") (Some "y") None None
       = Json {| c_r := toFixed6 r;
                 c_interpretation := interpretation (Num r) |}.
Proof.
  destruct (correlation_route_outcomes IsoDate.parse xy_dataset "x" "y"
              None None eq_refl eq_refl eq_refl eq_refl)
    as [(Hempty & _) | (_ & H)].
  - discriminate Hempty.
  - exact H.
Defined.

Lemma trends_route_points_witness :
  exists result out,
    trends_route IsoDate.parse gap_dataset (Some "t") 2 None None = Json result
    /\ movingAverage (map (fun s => get s "t") (data gap_dataset)) 2 = Some out
    /\ map tp_date result = map date (data gap_dataset)
    /\ map (fun p => Field (tp_value p)) result
       = map (fun s => property s "t") (data gap_dataset)
    /\ map moving_average result = map toFixed6 out.
Proof.
  apply (trends_route_points IsoDate.parse gap_dataset "t" 2%Z None None);
    [reflexivity | reflexivity | lia | exact gap_dataset_reads_fields].
Defined.

Lemma trends_route_window_not_positive_witness :
  trends_route IsoDate.parse gap_dataset (Some "t") 0 None None = TypeError.
Proof.
  apply (proj2 (trends_route_window_not_positive IsoDate.parse gap_dataset "t"
                  0%Z None None eq_refl eq_refl)).
  - lia.
  - discriminate.
Defined.

Lemma invalid_record_date_is_kept_witness :
  In (on "soon" 1%float)
     (filterByDateRange IsoDate.parse (on "soon" 1%float :: ten_days)
                        (Some "2024-01-03") (Some "2024-01-05")).
Proof.
  apply (invalid_record_date_is_kept IsoDate.parse).
  - vm_compute. reflexivity.
  - left. reflexivity.
Defined.

Lemma data_route_points_witness :
  exists pts,
    data_route IsoDate.parse gap_dataset (Some "depth") None None = Points pts
    /\ map dp_date pts = ["2024-01-01"; "2024-01-02"; "2024-01-03"]
    /\ forall p, In p pts -> dp_value p = Field Null.
Proof.
  destruct (data_route_points IsoDate.parse gap_dataset "depth" None None eq_refl)
    as (pts & H1 & H2 & _ & _ & H5).
  exists pts. split; [exact H1|]. split; [exact H2|].
  apply H5; [discriminate | reflexivity |].
  intros s Hs. simpl in Hs.
  repeat (destruct Hs as [<- | Hs]; [reflexivity|]). contradiction.
Defined.

Lemma upload_route_stores_witness :
  let d := {| id := "buoy"; name := "buoy"; description := "";
              parameters := ["x"; "y"]; data := data sparse_dataset |} in
  Some (id d) = p_id buoy_payload
  /\ id d <> ""
  /\ name d <> ""
  /\ Some (parameters d) = p_parameters buoy_payload
  /\ Some (data d) = p_data buoy_payload.
Proof.
  intros d. apply (upload_route_stores buoy_payload d). reflexivity.
Defined.

Lemma upload_of_no_records_breaks_listing_witness :
  exists d,
    upload_route empty_payload = Json d
    /\ forall values, In d values -> list_route values = TypeError.
Proof.
  apply (upload_of_no_records_breaks_listing empty_payload ["x"]); reflexivity.
Defined.

Lemma authMiddleware_reads_second_word_witness :
  authMiddleware true verify (Some "Bearer secret and more")
  = Next (Some "uid-1").
Proof.
  apply (authMiddleware_reads_second_word verify "Bearer" "secret" " and more").
  - reflexivity.
  - reflexivity.
  - discriminate.
  - right. exists "and more". reflexivity.
Defined.

Lemma authMiddleware_missing_token_witness :
  authMiddleware true verify (Some "secret") = Unauthorized "Missing auth token".
Proof.
  apply (authMiddleware_missing_token verify).
  right. left. exists "secret". split; reflexivity.
Defined.

Lemma upload_request_needs_token_witness :
  exists h token decoded,
    Some "Bearer secret" = Some h
    /\ nth_error (split_on " " h) 1 = Some token
    /\ verify token = Some decoded
    /\ upload_route buoy_payload
       = Json {| id := "buoy"; name := "buoy"; description := "";
                 parameters := ["x"; "y"]; data := data sparse_dataset |}.
Proof.
  apply (upload_request_needs_token verify (Some "Bearer secret") buoy_payload).
  reflexivity.
Defined.

Lemma export_round_trip_witness :
  exists csv,
    export_route whole_toString native xy_dataset (Some "x") = Json csv
    /\ map (split_on ",") (split_on (ascii_of_nat 10) csv)
       = [["date"; "x"]; ["2024-01-01"; "1"]; ["2024-01-02"; "2"];
          ["2024-01-03"; "3"]; ["2024-01-04"; "4"]; ["2024-01-05"; "5"]]
    /\ length (split_on (ascii_of_nat 10) csv) = 6.
Proof.
  destruct (export_round_trip whole_toString native xy_dataset "x")
    as (csv & H1 & H2 & H3); try reflexivity.
  - intros s Hs. simpl in Hs.
    repeat (destruct Hs as [<- | Hs]; [split; vm_compute; reflexivity|]).
    contradiction.
  - exists csv. split; [exact H1|]. split; [|exact H3].
    rewrite H2. vm_compute. reflexivity.
Defined.

Lemma generateTimeSeries_dates_witness :
  exists series,
    generateTimeSeries_at flat flat (fun x => x) half utc april_night 0
                          "marine_weather" 90 = Some series
    /\ length series = 90
    /\ map date series
       = map (fun i => DateObject.iso_of_day
                         (DateObject.Day april_night - (Z.of_nat 90 - 1)
                          + Z.of_nat i)%Z)
             (seq 0 90).
Proof.
  apply (generateTimeSeries_dates utc 0%Z (fun _ _ => eq_refl)
           flat flat (fun x => x) half april_night 0 90 "marine_weather").
  - vm_compute. discriminate.
  - left. reflexivity.
Defined.

(** With daylight saving the days are not consecutive.  For a clock at
    00:30 local time of 2024-04-05, five days after the clocks went
    forward, the 90 records start on 2024-01-07, not 2024-01-06, and two of
    them are dated 2024-03-31; on UTC every day from 2024-01-06 to
    2024-04-04 is there once. *)
Lemma dates_repeat_across_summer_time :
  map (DateObject.iso_at london april_night 90) [0; 83; 84; 85; 86; 89]
  = [Some "2024-01-07"; Some "2024-03-30"; Some "2024-03-31";
     Some "2024-03-31"; Some "2024-04-01"; Some "2024-04-04"]
  /\ map (DateObject.iso_at utc april_night 90) [0; 83; 84; 85; 86; 89]
     = [Some "2024-01-06"; Some "2024-03-29"; Some "2024-03-30";
        Some "2024-03-31"; Some "2024-04-01"; Some "2024-04-04"].
Proof. split; vm_compute; reflexivity. Qed.

Lemma movingAverage_gap_spreads_witness :
  exists out,
    movingAverage (map (fun s => get s "t") (data gap_dataset)) 2 = Some out
    /\ nth_error out 2 = Some nan.
Proof.
  apply (MoreOnBinary64.movingAverage_gap_spreads
           (map (fun s => get s "t") (data gap_dataset)) 2%Z 1 2).
  - lia.
  - reflexivity.
  - lia.
  - lia.
  - simpl. lia.
Defined.

Lemma pearson_gap_is_NaN_witness :
  pearson [Num 1%float; Undefined; Num 3%float] (nums [2; 4; 6]%float) = Num nan
  /\ interpretation (Num nan) = "Weak or no correlation".
Proof.
  apply MoreOnBinary64.pearson_gap_is_NaN.
  - reflexivity.
  - left. right. left. reflexivity.
Defined.


End Instances.
